(** * Host identity resolution of [main.go]

    A shallow embedding of [getSystemInfo] (main.go, lines 39-70): the
    function that derives the triple (hostname, IPv4 address, hardware
    address) from the operating system's hostname and interface tables.

    The function talks to the operating system three ways ([os.Hostname],
    [net.Interfaces], [Interface.Addrs]) and may end the process with
    [log.Fatal].  These effects are kept explicit: a computation runs in
    a [World] made of the network configuration it reads and the trace of
    calls it has issued, and ends either by returning or by exiting. *)

From Stdlib Require Import List String Ascii Bool ZArith NArith Arith Lia.
From Stdlib.Strings Require Import Byte.
Import ListNotations.

Local Open Scope string_scope.
Local Open Scope list_scope.
Local Open Scope nat_scope.

(** ** Byte formatting helpers of Go's [net] and [net/netip] packages *)

Module Fmt.

Definition digits : string := "0123456789".
Definition hexDigit : string := "0123456789abcdef".

(** [s[i]] for an index known to be in range. *)
Definition at_index (s : string) (i : N) : ascii :=
  match String.get (N.to_nat i) s with
  | Some c => c
  | None => Ascii.zero
  end.

Definition push (b : string) (c : ascii) : string := b ++ String c EmptyString.

(** netip.appendDecimal: a uint8 in decimal without leading zeros. *)
Definition appendDecimal (b : string) (x : N) : string :=
  let b := if (100 <=? x)%N then push b (at_index digits (x / 100)) else b in
  let b := if (10 <=? x)%N then push b (at_index digits ((x / 10) mod 10)) else b in
  push b (at_index digits (x mod 10)).

(** netip.appendHex: a uint16 in lower-case hex without leading zeros. *)
Definition appendHex (b : string) (x : N) : string :=
  let b := if (4096 <=? x)%N then push b (at_index hexDigit (N.shiftr x 12)) else b in
  let b := if (256 <=? x)%N
           then push b (at_index hexDigit (N.land (N.shiftr x 8) 15)) else b in
  let b := if (16 <=? x)%N
           then push b (at_index hexDigit (N.land (N.shiftr x 4) 15)) else b in
  push b (at_index hexDigit (N.land x 15)).

(** Two hex digits of one byte, as in [HardwareAddr.String] and
    [hexString]. *)
Definition appendByteHex (b : string) (x : byte) : string :=
  let n := Byte.to_N x in
  push (push b (at_index hexDigit (N.shiftr n 4))) (at_index hexDigit (N.land n 15)).

Fixpoint hexString (bs : list byte) : string :=
  match bs with
  | [] => EmptyString
  | x :: rest => appendByteHex EmptyString x ++ hexString rest
  end.

End Fmt.

(** ** The parts of Go's [net] package that [getSystemInfo] uses *)

Module Net.

Definition IP := list byte.
Definition IPMask := list byte.
Definition HardwareAddr := list byte.

Definition IPv4len : nat := 4.
Definition IPv6len : nat := 16.

Definition bytes_eqb (a b : list byte) : bool :=
  if list_eq_dec Byte.byte_eq_dec a b then true else false.

Definition isZeros (p : list byte) : bool :=
  forallb (fun b => Byte.eqb b x00) p.

Definition slice (p : list byte) (lo hi : nat) : list byte :=
  firstn (hi - lo) (skipn lo p).

Definition v4InV6Prefix : list byte :=
  [x00; x00; x00; x00; x00; x00; x00; x00; x00; x00; xff; xff].

Definition IPv6loopback : IP :=
  [x00; x00; x00; x00; x00; x00; x00; x00; x00; x00; x00; x00; x00; x00; x00; x01].

(** [net.IPv4]: the 16-byte form of the IPv4 address a.b.c.d, the form
    in which the interface tables hand out IPv4 addresses. *)
Definition IPv4 (a b c d : byte) : IP := v4InV6Prefix ++ [a; b; c; d].

(** [IP.To4]: the 4-byte form of an IPv4 address, [None] for Go's nil. *)
Definition To4 (ip : IP) : option IP :=
  if List.length ip =? IPv4len then Some ip
  else if (List.length ip =? IPv6len)
          && isZeros (slice ip 0 10)
          && Byte.eqb (nth 10 ip x00) xff
          && Byte.eqb (nth 11 ip x00) xff
       then Some (slice ip 12 16)
       else None.

(** [IP.Equal]. *)
Definition Equal (ip x : IP) : bool :=
  if List.length ip =? List.length x then bytes_eqb ip x
  else if (List.length ip =? IPv4len) && (List.length x =? IPv6len)
       then bytes_eqb (slice x 0 12) v4InV6Prefix && bytes_eqb ip (skipn 12 x)
  else if (List.length ip =? IPv6len) && (List.length x =? IPv4len)
       then bytes_eqb (slice ip 0 12) v4InV6Prefix && bytes_eqb (skipn 12 ip) x
  else false.

(** [IP.IsLoopback]. *)
Definition IsLoopback (ip : IP) : bool :=
  match To4 ip with
  | Some ip4 => Byte.eqb (nth 0 ip4 x00) x7f
  | None => Equal ip IPv6loopback
  end.

(** netip's dotted-quad form of four bytes. *)
Definition string4 (p4 : list byte) : string :=
  let v4 i := Byte.to_N (nth i p4 x00) in
  let ret := Fmt.appendDecimal EmptyString (v4 0) in
  let ret := Fmt.push ret "." in
  let ret := Fmt.appendDecimal ret (v4 1) in
  let ret := Fmt.push ret "." in
  let ret := Fmt.appendDecimal ret (v4 2) in
  let ret := Fmt.push ret "." in
  Fmt.appendDecimal ret (v4 3).

(** The [i]-th 16-bit field of a 16-byte address. *)
Definition v6u16 (ip : IP) (i : nat) : N :=
  (256 * Byte.to_N (nth (2 * i) ip x00) + Byte.to_N (nth (2 * i + 1) ip x00))%N.

(** [for j < 8 && v6u16(j) == 0 { j++ }] *)
Fixpoint zeroRunEnd (ip : IP) (j fuel : nat) : nat :=
  match fuel with
  | O => j
  | S fuel' =>
      if (j <? 8) && (v6u16 ip j =? 0)%N then zeroRunEnd ip (S j) fuel' else j
  end.

(** First loop of netip's [appendTo6]: the longest run of at least two
    zero fields, the first one among equals.  [n] counts the iterations
    left, [i] is the loop variable. *)
Fixpoint findZeros (ip : IP) (i n zeroStart zeroEnd : nat) : nat * nat :=
  match n with
  | O => (zeroStart, zeroEnd)
  | S n' =>
      let j := zeroRunEnd ip i 8 in
      let l := j - i in
      if (2 <=? l) && (zeroEnd - zeroStart <? l)
      then findZeros ip (S i) n' i j
      else findZeros ip (S i) n' zeroStart zeroEnd
  end.

(** Second loop of [appendTo6]. *)
Fixpoint emit6 (ip : IP) (zeroStart zeroEnd i fuel : nat) (ret : string) : string :=
  match fuel with
  | O => ret
  | S fuel' =>
      if 8 <=? i then ret
      else if i =? zeroStart then
             let ret := Fmt.push (Fmt.push ret ":") ":" in
             let i := zeroEnd in
             if 8 <=? i then ret
             else emit6 ip zeroStart zeroEnd (S i) fuel' (Fmt.appendHex ret (v6u16 ip i))
           else
             let ret := if 0 <? i then Fmt.push ret ":" else ret in
             emit6 ip zeroStart zeroEnd (S i) fuel' (Fmt.appendHex ret (v6u16 ip i))
  end.

Definition string6 (ip : IP) : string :=
  let '(zeroStart, zeroEnd) := findZeros ip 0 8 255 255 in
  emit6 ip zeroStart zeroEnd 0 9 EmptyString.

(** [IP.String]. *)
Definition IP_String (ip : IP) : string :=
  if List.length ip =? 0 then "<nil>"
  else if negb (List.length ip =? IPv4len) && negb (List.length ip =? IPv6len)
       then String.append "?" (Fmt.hexString ip)
  else match To4 ip with
       | Some p4 => string4 p4
       | None => string6 ip
       end.

(** [HardwareAddr.String]: colon-separated hex octets, empty for an
    empty address. *)
Fixpoint HardwareAddr_loop (a : list byte) (i : nat) (buf : string) : string :=
  match a with
  | [] => buf
  | b :: rest =>
      let buf := if 0 <? i then Fmt.push buf ":" else buf in
      HardwareAddr_loop rest (S i) (Fmt.appendByteHex buf b)
  end.

Definition HardwareAddr_String (a : HardwareAddr) : string :=
  if List.length a =? 0 then EmptyString else HardwareAddr_loop a 0 EmptyString.

Record IPNet := { IP_of : IP; Mask : IPMask }.
Record IPAddr := { IPAddr_IP : IP; Zone : string }.

(** The dynamic types an [Addr] value can hold. *)
Inductive Addr :=
| Addr_IPNet (n : IPNet)
| Addr_IPAddr (a : IPAddr).

Record Interface := {
  Index : Z;
  MTU : Z;
  Name : string;
  HardwareAddr_of : HardwareAddr;
  Flags : N
}.

End Net.

(** ** The operating system as seen by the program *)

Module OS.

(** A Go [error] value, by its message. *)
Definition error := string.

(** The network configuration of the machine: what the hostname query
    answers, what the interface enumeration answers, and what the
    address query answers for the interface with a given index. *)
Record NetConfig := {
  hostname_query : string + error;
  interface_table : list Net.Interface + error;
  addr_table : Z -> list Net.Addr + error
}.

Inductive Call :=
| Call_Hostname
| Call_Interfaces
| Call_Addrs (ifi : Net.Interface)
| Call_Fatal (err : error).

(** The configuration is read, never written; the trace lists the calls
    issued so far, oldest first. *)
Record World := { config : NetConfig; trace : list Call }.

Definition record (c : Call) (w : World) : World :=
  {| config := config w; trace := trace w ++ [c] |}.

(** The world in which [main] starts. *)
Definition boot (cfg : NetConfig) : World := {| config := cfg; trace := [] |}.

Inductive Outcome (A : Type) :=
| Returned (a : A)
| Exited (code : Z).
Arguments Returned {A} a.
Arguments Exited {A} code.

Definition Proc (A : Type) := World -> Outcome A * World.

Definition ret {A} (a : A) : Proc A := fun w => (Returned a, w).

Definition bind {A B} (m : Proc A) (k : A -> Proc B) : Proc B :=
  fun w =>
    match m w with
    | (Returned a, w') => k a w'
    | (Exited code, w') => (Exited code, w')
    end.

(** [os.Hostname]: every failing path of the library returns the empty
    name together with the error. *)
Definition os_Hostname : Proc (string * option error) :=
  fun w =>
    (Returned match hostname_query (config w) with
              | inl name => (name, None)
              | inr err => (EmptyString, Some err)
              end,
     record Call_Hostname w).

(** [net.Interfaces]: a nil slice together with the error on failure. *)
Definition net_Interfaces : Proc (list Net.Interface * option error) :=
  fun w =>
    (Returned match interface_table (config w) with
              | inl ift => (ift, None)
              | inr err => ([], Some err)
              end,
     record Call_Interfaces w).

(** [Interface.Addrs] (pointer receiver): the addresses of the interface with the
    receiver's index. *)
Definition Interface_Addrs (ifi : Net.Interface) : Proc (list Net.Addr * option error) :=
  fun w =>
    (Returned match addr_table (config w) (Net.Index ifi) with
              | inl ifat => (ifat, None)
              | inr err => ([], Some err)
              end,
     record (Call_Addrs ifi) w).

(** [log.Fatal]: prints, then [os.Exit(1)]. *)
Definition log_Fatal {A} (err : error) : Proc A :=
  fun w => (Exited 1%Z, record (Call_Fatal err) w).

End OS.

Declare Scope proc_scope.
Delimit Scope proc_scope with proc.
Notation "x <- c1 ;; c2" := (OS.bind c1 (fun x => c2))
  (at level 61, c1 at next level, right associativity) : proc_scope.
Notation "' pat <- c1 ;; c2" := (OS.bind c1 (fun x => match x with pat => c2 end))
  (at level 61, pat pattern, c1 at next level, right associativity) : proc_scope.

(** ** [getSystemInfo] *)

Module Main.
Import Net OS.

(** [var ipAddress, macAddress string] *)
Record Locals := { ipAddress : string; macAddress : string }.

(** The type assertion of line 57: [addr] holds a pointer to [net.IPNet],
    or [ok] is false. *)
Definition assert_IPNet (addr : Addr) : option IPNet :=
  match addr with
  | Addr_IPNet ipNet => Some ipNet
  | Addr_IPAddr _ => None
  end.

Definition not_nil {A} (p : option A) : bool :=
  match p with Some _ => true | None => false end.

(** The inner loop, lines 56-63: the first address passing the test
    assigns both variables and leaves the loop. *)
Fixpoint forAddrs (iface : Interface) (addrs : list Addr) (v : Locals) : Locals :=
  match addrs with
  | [] => v
  | addr :: rest =>
      match assert_IPNet addr with
      | Some ipNet =>
          if negb (IsLoopback (IP_of ipNet)) && not_nil (To4 (IP_of ipNet))
          then {| ipAddress := IP_String (IP_of ipNet);
                  macAddress := HardwareAddr_String (HardwareAddr_of iface) |}
          else forAddrs iface rest v
      | None => forAddrs iface rest v
      end
  end.

(** The test of line 64: both variables are non-empty. *)
Definition both_found (v : Locals) : bool :=
  negb (String.eqb (ipAddress v) EmptyString) && negb (String.eqb (macAddress v) EmptyString).

(** The outer loop, lines 50-67. *)
Fixpoint forInterfaces (interfaces : list Interface) (v : Locals) : Proc Locals :=
  match interfaces with
  | [] => ret v
  | iface :: rest =>
      ('(addrs, err) <- Interface_Addrs iface ;;
       match err with
       | Some _ => forInterfaces rest v
       | None =>
           let v := forAddrs iface addrs v in
           if both_found v then ret v else forInterfaces rest v
       end)%proc
  end.

Definition getSystemInfo : Proc (string * string * string) :=
  ('(hostname, _) <- os_Hostname ;;
   '(interfaces, err) <- net_Interfaces ;;
   _ <- match err with
        | Some e => log_Fatal e
        | None => ret tt
        end ;;
   v <- forInterfaces interfaces {| ipAddress := EmptyString; macAddress := EmptyString |} ;;
   ret (hostname, ipAddress v, macAddress v))%proc.

(** The resolver run at process start: what it yields, and which
    interfaces it asked for their addresses, in order. *)
Definition resolve (cfg : NetConfig) : Outcome (string * string * string) :=
  fst (getSystemInfo (boot cfg)).

Fixpoint addrs_calls (t : list Call) : list Interface :=
  match t with
  | [] => []
  | Call_Addrs ifi :: t' => ifi :: addrs_calls t'
  | _ :: t' => addrs_calls t'
  end.

Definition queried (cfg : NetConfig) : list Interface :=
  addrs_calls (trace (snd (getSystemInfo (boot cfg)))).

End Main.

(** ** The vocabulary of the specification *)

Module Spec.
Import Net OS Main.

(** An IPv4 address (in 4-byte or IPv4-mapped 16-byte form) outside
    127.0.0.0/8. *)
Definition nonLoopbackIPv4 (ip : IP) : Prop :=
  exists p4, To4 ip = Some p4 /\ nth 0 p4 x00 <> x7f.

(** [a] is a network address ([net.IPNet]) carrying the non-loopback
    IPv4 address [ip]. *)
Definition qualifying_addr (a : Addr) (ip : IP) : Prop :=
  exists n, a = Addr_IPNet n /\ IP_of n = ip /\ nonLoopbackIPv4 ip.

Definition unqualified (a : Addr) : Prop := forall ip, ~ qualifying_addr a ip.

(** [iface] is a qualifying interface, and [ip] is the first qualifying
    address in its address list. *)
Definition qualifies (cfg : NetConfig) (iface : Interface) (ip : IP) : Prop :=
  exists before a after,
    addr_table cfg (Index iface) = inl (before ++ a :: after)
    /\ Forall unqualified before
    /\ qualifying_addr a ip.

(** [iface] has nothing to offer: its address query fails, or none of
    its addresses qualifies. *)
Definition passes_over (cfg : NetConfig) (iface : Interface) : Prop :=
  match addr_table cfg (Index iface) with
  | inl addrs => Forall unqualified addrs
  | inr _ => True
  end.

(** [iface] supplies both fields: it qualifies and has a hardware
    address. *)
Definition completes (cfg : NetConfig) (iface : Interface) : Prop :=
  (exists ip, qualifies cfg iface ip) /\ HardwareAddr_of iface <> [].

(** The pair of strings taken from interface [iface] and address [ip]. *)
Definition pair_of (iface : Interface) (ip : IP) : Locals :=
  {| ipAddress := IP_String ip;
     macAddress := HardwareAddr_String (HardwareAddr_of iface) |}.

Definition unset : Locals := {| ipAddress := EmptyString; macAddress := EmptyString |}.

Definition hostname_of (cfg : NetConfig) : string :=
  match hostname_query cfg with
  | inl name => name
  | inr _ => EmptyString
  end.

(** The address held by an [Addr], whatever its dynamic type. *)
Definition addr_IP (a : Addr) : IP :=
  match a with
  | Addr_IPNet n => IP_of n
  | Addr_IPAddr x => IPAddr_IP x
  end.

Definition with_interfaces (ift : list Interface) (cfg : NetConfig) : NetConfig :=
  {| hostname_query := hostname_query cfg;
     interface_table := inl ift;
     addr_table := addr_table cfg |}.

Definition with_hostname (q : string + error) (cfg : NetConfig) : NetConfig :=
  {| hostname_query := q;
     interface_table := interface_table cfg;
     addr_table := addr_table cfg |}.

(** The identity fields of an outcome, without the hostname. *)
Definition ip_mac (o : Outcome (string * string * string)) : Outcome (string * string) :=
  match o with
  | Returned (_, ip, mac) => Returned (ip, mac)
  | Exited code => Exited code
  end.

(** The loop of lines 50-67 without the calls: the final variables and
    the interfaces whose addresses were asked for. *)
Fixpoint scan (tbl : Z -> list Addr + error) (ifs : list Interface) (v : Locals)
  : Locals * list Interface :=
  match ifs with
  | [] => (v, [])
  | iface :: rest =>
      match tbl (Index iface) with
      | inr _ => let (r, q) := scan tbl rest v in (r, iface :: q)
      | inl addrs =>
          let v' := forAddrs iface addrs v in
          if both_found v' then (v', [iface])
          else let (r, q) := scan tbl rest v' in (r, iface :: q)
      end
  end.

(** The variables after the loop body ran once, for [iface]. *)
Definition step (tbl : Z -> list Addr + error) (iface : Interface) (v : Locals) : Locals :=
  match tbl (Index iface) with
  | inl addrs => forAddrs iface addrs v
  | inr _ => v
  end.

Definition after (tbl : Z -> list Addr + error) (pre : list Interface) (v : Locals) : Locals :=
  fold_left (fun v iface => step tbl iface v) pre v.

End Spec.


(** ** Sample machines *)

Module Hosts.
Import Net OS Main Spec.

Definition net (ip mask : list byte) : Addr := Addr_IPNet {| IP_of := ip; Mask := mask |}.

Definition mask4 (a b c d : byte) : IPMask := [a; b; c; d].
Definition mask6 (ones : nat) : IPMask := repeat xff ones ++ repeat x00 (16 - ones).

Definition ip_loopback4 : IP := IPv4 x7f x00 x00 x01.
Definition ip_doc : IP := IPv4 xc0 x00 x02 x0a.
Definition ip_vpn : IP := IPv4 x0a x08 x00 x01.
Definition ip_wifi : IP := IPv4 xc6 x33 x64 x07.
Definition ip_linklocal6 : IP :=
  [xfe; x80; x00; x00; x00; x00; x00; x00; xa8; xbb; xcc; xff; xfe; xdd; xee; xff].
Definition ip_global6 : IP :=
  [x20; x01; x0d; xb8; x00; x00; x00; x00; x00; x00; x00; x00; x00; x00; x00; x2a].

Definition lo : Interface :=
  {| Index := 1; MTU := 65536; Name := "lo"; HardwareAddr_of := []; Flags := 5 |}.
Definition tun0 : Interface :=
  {| Index := 2; MTU := 1420; Name := "tun0"; HardwareAddr_of := []; Flags := 25 |}.
Definition eth0 : Interface :=
  {| Index := 3; MTU := 1500; Name := "eth0";
     HardwareAddr_of := [xaa; xbb; xcc; xdd; xee; xff]; Flags := 19 |}.
Definition wlan0 : Interface :=
  {| Index := 4; MTU := 1500; Name := "wlan0";
     HardwareAddr_of := [x02; x00; x5e; x10; x00; x01]; Flags := 19 |}.
Definition gone0 : Interface :=
  {| Index := 5; MTU := 1500; Name := "gone0";
     HardwareAddr_of := [x02; x00; x5e; x10; x00; x02]; Flags := 18 |}.
Definition sit0 : Interface :=
  {| Index := 6; MTU := 1480; Name := "sit0";
     HardwareAddr_of := [x02; x00; x5e; x10; x00; x03]; Flags := 19 |}.

(** The address table shared by the sample machines: [gone0] vanished
    between the two queries, [sit0] carries IPv6 only. *)
Definition addrs_of (index : Z) : list Addr + error :=
  if (index =? 1)%Z then
    inl [net ip_loopback4 (mask4 xff x00 x00 x00); net IPv6loopback (mask6 16)]
  else if (index =? 2)%Z then inl [net ip_vpn (mask4 xff xff xff x00)]
  else if (index =? 3)%Z then
    inl [net ip_linklocal6 (mask6 8); net ip_doc (mask4 xff xff xff x00)]
  else if (index =? 4)%Z then inl [net ip_wifi (mask4 xff xff xff x00)]
  else if (index =? 6)%Z then inl [net ip_linklocal6 (mask6 8); net ip_global6 (mask6 8)]
  else inr "no such network interface".

Definition machine (ift : list Interface) : NetConfig :=
  {| hostname_query := inl "host-a";
     interface_table := inl ift;
     addr_table := addrs_of |}.

Definition only_loopback : NetConfig := machine [lo].
Definition plain : NetConfig := machine [lo; eth0].
Definition two_cards : NetConfig := machine [lo; eth0; wlan0].
Definition vpn_first : NetConfig := machine [lo; tun0; eth0; wlan0].
Definition vpn_then_v6 : NetConfig := machine [lo; tun0; sit0].
Definition v6_between : NetConfig := machine [lo; sit0; eth0].
Definition flaky : NetConfig := machine [lo; gone0; eth0].
Definition nameless : NetConfig := with_hostname (inr "uname: operation not permitted") plain.
Definition no_table : NetConfig :=
  {| hostname_query := inl "host-a";
     interface_table := inr "route ip+net: netlinkrib: permission denied";
     addr_table := addrs_of |}.

End Hosts.

(** ** First-match selection, as the specification words it *)

Module Claims.
Import Net OS Main Spec.

(** Among several qualifying interfaces the pair comes from the one
    enumerated first. *)
Definition first_qualifying_wins : Prop :=
  forall cfg pre i post ip,
    interface_table cfg = inl (pre ++ i :: post) ->
    (forall j, In j pre -> passes_over cfg j) ->
    qualifies cfg i ip ->
    (exists j ipj, In j post /\ qualifies cfg j ipj) ->
    ip_mac (resolve cfg)
    = Returned (IP_String ip, HardwareAddr_String (HardwareAddr_of i)).

End Claims.

(** ** Further vocabulary: what an interface offers, and reading the
    printed forms back *)

Module More.
Import Net OS Main Spec.

(** The test of lines 57-58 on an address of any dynamic type. *)
Definition selected (addr : Addr) : bool :=
  match assert_IPNet addr with
  | Some ipNet => negb (IsLoopback (IP_of ipNet)) && not_nil (To4 (IP_of ipNet))
  | None => false
  end.

(** [iface] has an address the inner loop would stop at. *)
Definition offers (cfg : NetConfig) (iface : Interface) : bool :=
  match addr_table cfg (Index iface) with
  | inl addrs => existsb selected addrs
  | inr _ => false
  end.

(** What the loop reads of an interface: its index (through the address
    query) and its hardware address. *)
Definition key (iface : Interface) : Z * HardwareAddr :=
  (Index iface, HardwareAddr_of iface).

(** One byte in decimal, as [IP.String] prints an IPv4 field. *)
Definition dec (b : byte) : string := Fmt.appendDecimal EmptyString (Byte.to_N b).

(** One byte as two hex digits, as [HardwareAddr.String] prints it. *)
Definition hex2 (b : byte) : string := Fmt.appendByteHex EmptyString b.

Definition is_digit (c : ascii) : bool :=
  ((48 <=? N_of_ascii c) && (N_of_ascii c <=? 57))%N.

(** Reads a decimal number off the front of a string. *)
Fixpoint parse_dec (acc : N) (s : string) : N * string :=
  match s with
  | EmptyString => (acc, EmptyString)
  | String c rest =>
      if is_digit c then parse_dec (10 * acc + (N_of_ascii c - 48))%N rest
      else (acc, s)
  end.

Definition skip1 (s : string) : string :=
  match s with
  | EmptyString => EmptyString
  | String _ rest => rest
  end.

(** Reads four dot-separated decimal fields. *)
Definition parse4 (s : string) : list N :=
  let '(a, s) := parse_dec 0 s in
  let '(b, s) := parse_dec 0 (skip1 s) in
  let '(c, s) := parse_dec 0 (skip1 s) in
  let '(d, _) := parse_dec 0 (skip1 s) in
  [a; b; c; d].

Definition unhex (c : ascii) : N :=
  let n := N_of_ascii c in
  (if n <? 58 then n - 48 else n - 87)%N.

Definition byte_of_hex (h l : ascii) : byte :=
  match Byte.of_N (16 * unhex h + unhex l) with
  | Some b => b
  | None => x00
  end.

(** Reads a run of groups made of a separator and two hex digits. *)
Fixpoint parse_groups (s : string) : list byte :=
  match s with
  | String _ (String h (String l rest)) => byte_of_hex h l :: parse_groups rest
  | _ => []
  end.

Definition parse_mac (s : string) : list byte := parse_groups (String ":" s).

(** A machine with two tunnels and no card. *)
Definition tun1 : Interface :=
  {| Index := 7; MTU := 1420; Name := "tun1"; HardwareAddr_of := []; Flags := 25 |}.

Definition ip_vpn2 : IP := IPv4 x0a x09 x00 x01.

Definition addrs_of2 (index : Z) : list Addr + error :=
  if (index =? 7)%Z
  then inl [Hosts.net ip_vpn2 (Hosts.mask4 xff xff xff x00)]
  else Hosts.addrs_of index.

Definition two_tunnels : NetConfig :=
  {| hostname_query := inl "host-a";
     interface_table := inl [Hosts.lo; Hosts.tun0; tun1; Hosts.sit0];
     addr_table := addrs_of2 |}.

(** [eth0] as the kernel reports it when the link is down and renamed. *)
Definition eth0_down : Interface :=
  {| Index := 3; MTU := 9000; Name := "lan"; 
     HardwareAddr_of := [xaa; xbb; xcc; xdd; xee; xff]; Flags := 18 |}.

End More.

(** ** Formatting on examples *)

Example string4_doc : Net.IP_String [xc0; x00; x02; x0a] = "192.0.2.10".
Proof. reflexivity. Qed.

Example string4_mapped :
  Net.IP_String (Net.v4InV6Prefix ++ [x7f; x00; x00; x01]) = "127.0.0.1".
Proof. reflexivity. Qed.

Example string6_loopback : Net.IP_String Net.IPv6loopback = "::1".
Proof. reflexivity. Qed.

Example string6_doc :
  Net.IP_String [x20; x01; x0d; xb8; x00; x00; x00; x00;
                 x00; x01; x00; x00; x00; x00; x00; x01] = "2001:db8::1:0:0:1".
Proof. reflexivity. Qed.

Example string6_linklocal :
  Net.IP_String [xfe; x80; x00; x00; x00; x00; x00; x00;
                 x00; x00; x00; x00; x00; x00; x00; x00] = "fe80::".
Proof. reflexivity. Qed.

Example mac_doc :
  Net.HardwareAddr_String [xaa; xbb; xcc; xdd; xee; xff] = "aa:bb:cc:dd:ee:ff".
Proof. reflexivity. Qed.

(** ** Formatting facts *)

Section Formatting.
Import Net.

Lemma push_nonempty b c : Fmt.push b c <> EmptyString.
Proof. unfold Fmt.push. destruct b; simpl; discriminate. Qed.

Lemma appendDecimal_nonempty b x : Fmt.appendDecimal b x <> EmptyString.
Proof. unfold Fmt.appendDecimal. apply push_nonempty. Qed.

Lemma appendByteHex_nonempty b x : Fmt.appendByteHex b x <> EmptyString.
Proof. unfold Fmt.appendByteHex. apply push_nonempty. Qed.

Lemma string4_nonempty p4 : string4 p4 <> EmptyString.
Proof. unfold string4. apply appendDecimal_nonempty. Qed.

Lemma To4_length ip p4 :
  To4 ip = Some p4 -> List.length ip = IPv4len \/ List.length ip = IPv6len.
Proof.
  unfold To4. destruct (List.length ip =? IPv4len) eqn:E4.
  - intros _. left. now apply Nat.eqb_eq.
  - destruct (List.length ip =? IPv6len) eqn:E6; simpl; [|discriminate].
    intros _. right. now apply Nat.eqb_eq.
Qed.

(** On an IPv4 address [IP.String] is the dotted quad of [To4]. *)
Lemma IP_String_To4 ip p4 : To4 ip = Some p4 -> IP_String ip = string4 p4.
Proof.
  intros H. unfold IP_String. rewrite H.
  destruct (To4_length _ _ H) as [L|L]; rewrite L; reflexivity.
Qed.

Lemma HardwareAddr_loop_nonempty a i buf :
  buf <> EmptyString -> HardwareAddr_loop a i buf <> EmptyString.
Proof.
  revert i buf. induction a as [|b rest IH]; intros i buf Hb; simpl; [exact Hb|].
  apply IH, appendByteHex_nonempty.
Qed.

Lemma HardwareAddr_String_empty a : HardwareAddr_String a = EmptyString <-> a = [].
Proof.
  split.
  - destruct a as [|b rest]; [reflexivity|]. unfold HardwareAddr_String. simpl.
    intros H. exfalso. revert H. apply HardwareAddr_loop_nonempty, appendByteHex_nonempty.
  - intros ->. reflexivity.
Qed.

End Formatting.

(** ** The inner loop *)

Section InnerLoop.
Import Net OS Main Spec.

(** The test of line 58 on the address of an [IPNet]. *)
Lemma test_iff ip :
  negb (IsLoopback ip) && not_nil (To4 ip) = true <-> nonLoopbackIPv4 ip.
Proof.
  unfold IsLoopback, nonLoopbackIPv4. destruct (To4 ip) as [p4|]; simpl.
  - rewrite andb_true_r, negb_true_iff. split.
    + intros H. exists p4. split; [reflexivity|]. now apply Byte.eqb_false.
    + intros (q & Hq & Hne). injection Hq as <-.
      destruct (Byte.eqb (nth 0 p4 x00) x7f) eqn:E; [|reflexivity].
      apply Byte.byte_dec_bl in E. contradiction.
  - rewrite andb_false_r. split; [discriminate|].
    intros (q & Hq & _). discriminate.
Qed.

Lemma addr_cases a : unqualified a \/ exists ip, qualifying_addr a ip.
Proof.
  destruct a as [n|x].
  - destruct (negb (IsLoopback (IP_of n)) && not_nil (To4 (IP_of n))) eqn:E.
    + right. exists (IP_of n), n. repeat split. now apply test_iff.
    + left. intros ip (m & Hm & Hip & Hq). injection Hm as <-. subst ip.
      apply test_iff in Hq. congruence.
  - left. intros ip (m & Hm & _). discriminate.
Qed.

Lemma forAddrs_none iface addrs v :
  Forall unqualified addrs -> forAddrs iface addrs v = v.
Proof.
  induction 1 as [|a rest Ha _ IH]; simpl; [reflexivity|].
  destruct a as [n|x]; simpl; [|exact IH].
  destruct (negb (IsLoopback (IP_of n)) && not_nil (To4 (IP_of n))) eqn:E; [|exact IH].
  exfalso. apply (Ha (IP_of n)). exists n. repeat split. now apply test_iff.
Qed.

Lemma forAddrs_first iface before a after ip v :
  Forall unqualified before -> qualifying_addr a ip ->
  forAddrs iface (before ++ a :: after) v = pair_of iface ip.
Proof.
  intros Hb (n & -> & <- & Hq). induction Hb as [|b rest Hu _ IH]; simpl.
  - apply test_iff in Hq. rewrite Hq. reflexivity.
  - destruct b as [m|x]; simpl; [|exact IH].
    destruct (negb (IsLoopback (IP_of m)) && not_nil (To4 (IP_of m))) eqn:E; [|exact IH].
    exfalso. apply (Hu (IP_of m)). exists m. repeat split. now apply test_iff.
Qed.

Lemma addrs_cases addrs :
  Forall unqualified addrs
  \/ exists before a after ip,
       addrs = before ++ a :: after /\ Forall unqualified before /\ qualifying_addr a ip.
Proof.
  induction addrs as [|a rest IH]; [left; constructor|].
  destruct (addr_cases a) as [Hu|(ip & Hq)].
  - destruct IH as [Hall|(before & b & after & ip & -> & Hb & Hq)].
    + left. now constructor.
    + right. exists (a :: before), b, after, ip. repeat split; auto.
  - right. exists [], a, rest, ip. repeat split; auto.
Qed.

(** An address that is not IPv4 never qualifies, whatever holds it. *)
Lemma not_IPv4_unqualified a : To4 (addr_IP a) = None -> unqualified a.
Proof.
  intros H ip (n & -> & <- & (p4 & Hp & _)). simpl in H. congruence.
Qed.

(** A loopback IPv4 address never qualifies. *)
Lemma loopback_unqualified a p4 :
  To4 (addr_IP a) = Some p4 -> nth 0 p4 x00 = x7f -> unqualified a.
Proof.
  intros H L ip (n & -> & <- & (q & Hq & Hne)). simpl in H.
  rewrite H in Hq. injection Hq as <-. contradiction.
Qed.

End InnerLoop.

(** ** One interface *)

Section OneInterface.
Import Net OS Main Spec.
Variable cfg : NetConfig.

Lemma iface_cases iface : passes_over cfg iface \/ exists ip, qualifies cfg iface ip.
Proof.
  unfold passes_over, qualifies.
  destruct (addr_table cfg (Index iface)) as [addrs|e]; [|now left].
  destruct (addrs_cases addrs) as [H|(before & a & after & ip & -> & Hb & Hq)].
  - now left.
  - right. exists ip, before, a, after. auto.
Qed.

Lemma passes_not_qualifies iface ip : passes_over cfg iface -> ~ qualifies cfg iface ip.
Proof.
  unfold passes_over. intros Hp (before & a & after & Ht & _ & Hq).
  rewrite Ht in Hp. apply Forall_app in Hp as [_ Hp].
  inversion Hp as [|? ? Ha _]; subst. exact (Ha ip Hq).
Qed.

Lemma step_pass iface v : passes_over cfg iface -> step (addr_table cfg) iface v = v.
Proof.
  unfold passes_over, step. destruct (addr_table cfg (Index iface)); [|reflexivity].
  apply forAddrs_none.
Qed.

Lemma step_qualifies iface ip v :
  qualifies cfg iface ip -> step (addr_table cfg) iface v = pair_of iface ip.
Proof.
  intros (before & a & after & Ht & Hb & Hq). unfold step. rewrite Ht.
  now apply forAddrs_first.
Qed.

Lemma qualifies_IP_nonempty iface ip :
  qualifies cfg iface ip -> IP_String ip <> EmptyString.
Proof.
  intros (_ & a & _ & _ & _ & (n & _ & _ & (p4 & Hp & _))).
  rewrite (IP_String_To4 _ _ Hp). apply string4_nonempty.
Qed.

Lemma both_found_pair iface ip :
  qualifies cfg iface ip ->
  both_found (pair_of iface ip) = true <-> HardwareAddr_of iface <> [].
Proof.
  intros Hq. unfold both_found, pair_of. simpl.
  apply qualifies_IP_nonempty, String.eqb_neq in Hq. rewrite Hq. simpl.
  rewrite negb_true_iff, String.eqb_neq, HardwareAddr_String_empty. tauto.
Qed.

(** The loop body leaves the variables short of complete unless the
    interface supplies both fields. *)
Lemma step_incomplete iface v :
  both_found v = false -> ~ completes cfg iface ->
  both_found (step (addr_table cfg) iface v) = false.
Proof.
  intros Hv Hc. destruct (iface_cases iface) as [Hp|(ip & Hq)].
  - now rewrite step_pass.
  - rewrite (step_qualifies _ _ _ Hq).
    destruct (both_found (pair_of iface ip)) eqn:E; [|reflexivity].
    exfalso. apply Hc. split; [now exists ip|]. now apply (both_found_pair _ _ Hq).
Qed.

Lemma step_completes iface ip v :
  qualifies cfg iface ip -> HardwareAddr_of iface <> [] ->
  both_found (step (addr_table cfg) iface v) = true.
Proof.
  intros Hq Hm. rewrite (step_qualifies _ _ _ Hq). now apply (both_found_pair _ _ Hq).
Qed.

End OneInterface.

(** ** The outer loop *)

Section OuterLoop.
Import Net OS Main Spec.
Variable cfg : NetConfig.
Local Notation "'tbl'" := (addr_table cfg).

(** At the head of the loop the variables are never both set; under
    that invariant every iteration is body, test, and the rest. *)
Lemma scan_cons iface rest v :
  both_found v = false ->
  scan tbl (iface :: rest) v =
    if both_found (step tbl iface v)
    then (step tbl iface v, [iface])
    else (fst (scan tbl rest (step tbl iface v)),
          iface :: snd (scan tbl rest (step tbl iface v))).
Proof.
  intros Hv. unfold step. simpl.
  destruct (addr_table cfg (Index iface)) as [addrs|e].
  - destruct (both_found (forAddrs iface addrs v)); [reflexivity|].
    now destruct (scan tbl rest (forAddrs iface addrs v)).
  - rewrite Hv. now destruct (scan tbl rest v).
Qed.

(** The interface at the head of the list is always asked. *)
Lemma scan_asks_head iface rest v :
  exists k, snd (scan tbl (iface :: rest) v) = iface :: k.
Proof.
  simpl. destruct (addr_table cfg (Index iface)) as [addrs|e].
  - destruct (both_found (forAddrs iface addrs v)); [now exists []|].
    destruct (scan tbl rest (forAddrs iface addrs v)) as [r q]. now exists q.
  - destruct (scan tbl rest v) as [r q]. now exists q.
Qed.

(** A prefix of interfaces none of which supplies both fields is walked
    through entirely. *)
Lemma scan_prefix pre : forall v,
  both_found v = false ->
  (forall j, In j pre -> ~ completes cfg j) ->
  both_found (after tbl pre v) = false
  /\ forall rest,
       scan tbl (pre ++ rest) v =
         (fst (scan tbl rest (after tbl pre v)),
          pre ++ snd (scan tbl rest (after tbl pre v))).
Proof.
  induction pre as [|p pre IH]; intros v Hv Hpre.
  - split; [exact Hv|]. intros rest. simpl. now destruct (scan tbl rest v).
  - assert (Hs : both_found (step tbl p v) = false).
    { apply step_incomplete; [exact Hv|]. apply Hpre. now left. }
    destruct (IH (step tbl p v) Hs) as [Ha Hrest].
    { intros j Hj. apply Hpre. now right. }
    split; [exact Ha|]. intros rest.
    change ((p :: pre) ++ rest) with (p :: (pre ++ rest)).
    rewrite (scan_cons _ _ _ Hv), Hs, Hrest. reflexivity.
Qed.

Lemma after_pass pre : forall v,
  (forall j, In j pre -> passes_over cfg j) -> after tbl pre v = v.
Proof.
  induction pre as [|p pre IH]; intros v Hpre; [reflexivity|].
  unfold after. simpl. rewrite step_pass by (apply Hpre; now left).
  apply IH. intros j Hj. apply Hpre. now right.
Qed.

(** Whatever holds of the initial variables and of the pair of every
    qualifying interface holds of the variables the loop ends with. *)
Lemma scan_invariant (P : Locals -> Prop) ifs : forall v,
  P v ->
  (forall j ip, In j ifs -> qualifies cfg j ip -> P (pair_of j ip)) ->
  P (fst (scan tbl ifs v)).
Proof.
  induction ifs as [|i ifs IH]; intros v Hv Hq; [exact Hv|].
  assert (Hs : P (step tbl i v)).
  { destruct (iface_cases cfg i) as [Hp|(ip & Hi)].
    - now rewrite step_pass.
    - rewrite (step_qualifies _ _ _ _ Hi). apply (Hq i ip); [now left|exact Hi]. }
  assert (Hrest : forall u, P u -> P (fst (scan tbl ifs u))).
  { intros u Hu. apply IH; [exact Hu|]. intros j ip Hj. apply Hq. now right. }
  unfold step in Hs. simpl.
  destruct (addr_table cfg (Index i)) as [addrs|e].
  - destruct (both_found (forAddrs i addrs v)); [exact Hs|].
    specialize (Hrest _ Hs). now destruct (scan tbl ifs (forAddrs i addrs v)).
  - specialize (Hrest _ Hv). now destruct (scan tbl ifs v).
Qed.

(** Once an address is recorded the address field stays non-empty. *)
Lemma scan_keeps_ip ifs v :
  ipAddress v <> EmptyString -> ipAddress (fst (scan tbl ifs v)) <> EmptyString.
Proof.
  intros Hv. apply (scan_invariant (fun u => ipAddress u <> EmptyString)); [exact Hv|].
  intros j ip _ Hq. simpl. exact (qualifies_IP_nonempty cfg j ip Hq).
Qed.

(** A qualifying interface anywhere in the list makes the address field
    non-empty. *)
Lemma scan_finds_ip ifs : forall v j ip,
  In j ifs -> qualifies cfg j ip -> ipAddress (fst (scan tbl ifs v)) <> EmptyString.
Proof.
  induction ifs as [|i ifs IH]; intros v j ip Hin Hq; [contradiction|].
  assert (Hb : forall u, both_found u = true -> ipAddress u <> EmptyString).
  { intros u Hu. unfold both_found in Hu. apply andb_true_iff in Hu as [Hu _].
    now apply negb_true_iff, String.eqb_neq in Hu. }
  destruct Hin as [->|Hin].
  - pose proof (step_qualifies cfg j ip v Hq) as Hs. unfold step in Hs. simpl.
    destruct Hq as (before & a & after & Ht & Hq). rewrite Ht in Hs |- *. rewrite Hs.
    assert (Hne : ipAddress (pair_of j ip) <> EmptyString).
    { simpl. apply (qualifies_IP_nonempty cfg j ip). exists before, a, after. auto. }
    destruct (both_found (pair_of j ip)); [exact Hne|].
    pose proof (scan_keeps_ip ifs _ Hne) as Hk.
    now destruct (scan tbl ifs (pair_of j ip)).
  - simpl. destruct (addr_table cfg (Index i)) as [addrs|e].
    + destruct (both_found (forAddrs i addrs v)) eqn:E; [now apply Hb|].
      pose proof (IH (forAddrs i addrs v) j ip Hin Hq) as Hk.
      now destruct (scan tbl ifs (forAddrs i addrs v)).
    + pose proof (IH v j ip Hin Hq) as Hk. now destruct (scan tbl ifs v).
Qed.

(** Dropping an interface that has nothing to offer does not change
    what the loop ends with. *)
Lemma scan_drop_passed i post pre : forall v,
  both_found v = false -> passes_over cfg i ->
  fst (scan tbl (pre ++ i :: post) v) = fst (scan tbl (pre ++ post) v).
Proof.
  induction pre as [|p pre IH]; intros v Hv Hi.
  - simpl app. rewrite (scan_cons _ _ _ Hv), (step_pass cfg i v Hi), Hv. reflexivity.
  - change ((p :: pre) ++ i :: post) with (p :: (pre ++ i :: post)).
    change ((p :: pre) ++ post) with (p :: (pre ++ post)).
    rewrite !(scan_cons _ _ _ Hv).
    destruct (both_found (step tbl p v)) eqn:E; [reflexivity|].
    simpl. now apply IH.
Qed.

End OuterLoop.

(** ** Running the program *)

Section Running.
Import Net OS Main Spec.

Lemma addrs_calls_app t1 t2 : addrs_calls (t1 ++ t2) = addrs_calls t1 ++ addrs_calls t2.
Proof.
  induction t1 as [|c t1 IH]; [reflexivity|].
  destruct c; simpl; rewrite IH; reflexivity.
Qed.

Lemma addrs_calls_map q : addrs_calls (map Call_Addrs q) = q.
Proof. induction q as [|i q IH]; simpl; [reflexivity|now rewrite IH]. Qed.

(** The monadic loop computes [scan] and records one call per
    interface asked. *)
Lemma forInterfaces_run ifs : forall v w,
  forInterfaces ifs v w =
    (Returned (fst (scan (addr_table (config w)) ifs v)),
     {| config := config w;
        trace := trace w ++ map Call_Addrs (snd (scan (addr_table (config w)) ifs v)) |}).
Proof.
  induction ifs as [|i ifs IH]; intros v w.
  - simpl. unfold ret. rewrite app_nil_r. now destruct w.
  - simpl. unfold bind, Interface_Addrs.
    destruct (addr_table (config w) (Index i)) as [addrs|e].
    + destruct (both_found (forAddrs i addrs v)).
      * reflexivity.
      * rewrite IH. simpl.
        destruct (scan (addr_table (config w)) ifs (forAddrs i addrs v)) as [r q].
        simpl. now rewrite <- app_assoc.
    + rewrite IH. simpl. destruct (scan (addr_table (config w)) ifs v) as [r q].
      simpl. now rewrite <- app_assoc.
Qed.

Lemma getSystemInfo_ok w ifs :
  interface_table (config w) = inl ifs ->
  getSystemInfo w =
    (let r := scan (addr_table (config w)) ifs unset in
     (Returned (hostname_of (config w), ipAddress (fst r), macAddress (fst r)),
      {| config := config w;
         trace := trace w ++ Call_Hostname :: Call_Interfaces :: map Call_Addrs (snd r) |})).
Proof.
  intros H. unfold getSystemInfo, bind, os_Hostname, net_Interfaces, hostname_of.
  destruct (hostname_query (config w)); simpl; rewrite H; simpl;
    rewrite forInterfaces_run; simpl; unfold ret; rewrite <- !app_assoc; reflexivity.
Qed.

Lemma getSystemInfo_fatal w e :
  interface_table (config w) = inr e ->
  getSystemInfo w =
    (Exited 1%Z,
     {| config := config w;
        trace := trace w ++ [Call_Hostname; Call_Interfaces; Call_Fatal e] |}).
Proof.
  intros H. unfold getSystemInfo, bind, os_Hostname, net_Interfaces, log_Fatal.
  destruct (hostname_query (config w)); simpl; rewrite H; simpl;
    unfold record; simpl; rewrite <- !app_assoc; reflexivity.
Qed.

Lemma resolve_ok cfg ifs :
  interface_table cfg = inl ifs ->
  resolve cfg =
    Returned (hostname_of cfg,
              ipAddress (fst (scan (addr_table cfg) ifs unset)),
              macAddress (fst (scan (addr_table cfg) ifs unset))).
Proof.
  intros H. unfold resolve. now rewrite (getSystemInfo_ok (boot cfg) ifs H).
Qed.

Lemma queried_ok cfg ifs :
  interface_table cfg = inl ifs ->
  queried cfg = snd (scan (addr_table cfg) ifs unset).
Proof.
  intros H. unfold queried. rewrite (getSystemInfo_ok (boot cfg) ifs H).
  simpl. apply addrs_calls_map.
Qed.

End Running.

(** ** Consequences for the resolver *)

Section Resolver.
Import Net OS Main Spec.
Variable cfg : NetConfig.

Lemma completes_not_passes i : passes_over cfg i -> ~ completes cfg i.
Proof. intros Hp [(ip & Hq) _]. exact (passes_not_qualifies cfg i ip Hp Hq). Qed.

Lemma no_hardware_not_completes i : HardwareAddr_of i = [] -> ~ completes cfg i.
Proof. intros H [_ Hm]. contradiction. Qed.

Lemma resolve_fatal e : interface_table cfg = inr e -> resolve cfg = Exited 1%Z.
Proof. intros H. unfold resolve. now rewrite (getSystemInfo_fatal (boot cfg) e H). Qed.

(** The first interface supplying both fields ends the loop and gives
    the result. *)
Lemma resolve_first_complete pre i post ip :
  interface_table cfg = inl (pre ++ i :: post) ->
  (forall j, In j pre -> ~ completes cfg j) ->
  qualifies cfg i ip -> HardwareAddr_of i <> [] ->
  resolve cfg
  = Returned (hostname_of cfg, IP_String ip, HardwareAddr_String (HardwareAddr_of i))
  /\ queried cfg = pre ++ [i].
Proof.
  intros Hift Hpre Hq Hm.
  rewrite (resolve_ok _ _ Hift), (queried_ok _ _ Hift).
  destruct (scan_prefix cfg pre unset eq_refl Hpre) as [Ha Hrest].
  rewrite Hrest, (scan_cons cfg _ _ _ Ha), (step_completes cfg i ip _ Hq Hm).
  simpl. rewrite (step_qualifies cfg i ip _ Hq). split; reflexivity.
Qed.

(** With no interface supplying both fields every interface is asked. *)
Lemma queried_all ifs :
  interface_table cfg = inl ifs ->
  (forall j, In j ifs -> ~ completes cfg j) ->
  queried cfg = ifs.
Proof.
  intros Hift Hall. rewrite (queried_ok _ _ Hift).
  destruct (scan_prefix cfg ifs unset eq_refl Hall) as [_ Hrest].
  specialize (Hrest []). rewrite app_nil_r in Hrest. rewrite Hrest.
  simpl. apply app_nil_r.
Qed.

(** After an interface that leaves a field missing the next one is
    asked. *)
Lemma queried_continues pre i nxt post :
  interface_table cfg = inl (pre ++ i :: nxt :: post) ->
  (forall j, In j pre -> ~ completes cfg j) ->
  ~ completes cfg i ->
  exists k, queried cfg = pre ++ i :: nxt :: k.
Proof.
  intros Hift Hpre Hi. rewrite (queried_ok _ _ Hift).
  destruct (scan_prefix cfg pre unset eq_refl Hpre) as [Ha Hrest].
  rewrite Hrest, (scan_cons cfg _ _ _ Ha), (step_incomplete cfg i _ Ha Hi).
  destruct (scan_asks_head cfg nxt post (step (addr_table cfg) i (after (addr_table cfg) pre unset)))
    as (k & Hk).
  exists k. cbn [snd]. now rewrite Hk.
Qed.

Lemma resolve_drop_passed pre i post :
  interface_table cfg = inl (pre ++ i :: post) ->
  passes_over cfg i ->
  resolve cfg = resolve (with_interfaces (pre ++ post) cfg).
Proof.
  intros Hift Hi.
  rewrite (resolve_ok _ _ Hift), (resolve_ok (with_interfaces (pre ++ post) cfg) _ eq_refl).
  simpl addr_table. rewrite (scan_drop_passed cfg i post pre unset eq_refl Hi).
  reflexivity.
Qed.

(** Both returned fields come from one qualifying interface. *)
Lemma resolve_source hostname ip mac :
  resolve cfg = Returned (hostname, ip, mac) ->
  ip <> EmptyString ->
  exists ifs i a,
    interface_table cfg = inl ifs /\ In i ifs /\ qualifies cfg i a
    /\ ip = IP_String a /\ mac = HardwareAddr_String (HardwareAddr_of i).
Proof.
  intros Hr Hne. destruct (interface_table cfg) as [ifs|e] eqn:Hift.
  - rewrite (resolve_ok _ _ Hift) in Hr. injection Hr as _ Hip Hmac.
    exists ifs. revert Hne. rewrite <- Hip, <- Hmac.
    apply (scan_invariant cfg
             (fun u => ipAddress u <> EmptyString ->
                       exists i a, inl ifs = inl ifs /\ In i ifs /\ qualifies cfg i a
                                   /\ ipAddress u = IP_String a
                                   /\ macAddress u = HardwareAddr_String (HardwareAddr_of i))).
    + intros H. now contradiction H.
    + intros j a Hj Hq _. exists j, a. auto.
  - rewrite (resolve_fatal _ Hift) in Hr. discriminate.
Qed.

Lemma resolve_finds_ip ifs j a :
  interface_table cfg = inl ifs -> In j ifs -> qualifies cfg j a ->
  exists ip mac, resolve cfg = Returned (hostname_of cfg, ip, mac) /\ ip <> EmptyString.
Proof.
  intros Hift Hj Hq. rewrite (resolve_ok _ _ Hift).
  eexists _, _. split; [reflexivity|]. exact (scan_finds_ip cfg ifs unset j a Hj Hq).
Qed.

(** When no interface supplies both fields, the pair is that of the
    last qualifying one. *)
Lemma resolve_last_incomplete pre i post ip :
  interface_table cfg = inl (pre ++ i :: post) ->
  (forall j, In j pre -> ~ completes cfg j) ->
  qualifies cfg i ip -> HardwareAddr_of i = [] ->
  (forall j, In j post -> passes_over cfg j) ->
  resolve cfg = Returned (hostname_of cfg, IP_String ip, EmptyString).
Proof.
  intros Hift Hpre Hq Hm Hpost. rewrite (resolve_ok _ _ Hift).
  assert (Hall : forall j, In j (pre ++ i :: post) -> ~ completes cfg j).
  { intros j Hj. apply in_app_or in Hj as [Hj|[<-|Hj]].
    - now apply Hpre.
    - now apply no_hardware_not_completes.
    - now apply completes_not_passes, Hpost. }
  destruct (scan_prefix cfg _ unset eq_refl Hall) as [_ Hrest].
  specialize (Hrest []). rewrite app_nil_r in Hrest. rewrite Hrest. simpl fst.
  unfold after. rewrite fold_left_app. simpl fold_left.
  rewrite (step_qualifies cfg i ip _ Hq).
  change (fold_left (fun v iface => step (addr_table cfg) iface v) post (pair_of i ip))
    with (after (addr_table cfg) post (pair_of i ip)).
  rewrite (after_pass cfg post _ Hpost). simpl. rewrite Hm. reflexivity.
Qed.

End Resolver.

(** ** Facts about the sample machines *)

Section SampleFacts.
Import Net OS Main Spec Hosts.
Variable ift : list Interface.

Lemma lo_passes : passes_over (machine ift) lo.
Proof.
  unfold passes_over. simpl. repeat constructor.
  - apply (loopback_unqualified _ [x7f; x00; x00; x01]); reflexivity.
  - apply not_IPv4_unqualified. reflexivity.
Qed.

Lemma tun0_qualifies : qualifies (machine ift) tun0 ip_vpn.
Proof.
  exists [], (net ip_vpn (mask4 xff xff xff x00)), []. repeat split; [constructor|].
  eexists. repeat split. exists [x0a; x08; x00; x01]. split; [reflexivity|discriminate].
Qed.

Lemma eth0_qualifies : qualifies (machine ift) eth0 ip_doc.
Proof.
  exists [net ip_linklocal6 (mask6 8)], (net ip_doc (mask4 xff xff xff x00)), [].
  repeat split.
  - repeat constructor. apply not_IPv4_unqualified. reflexivity.
  - eexists. repeat split. exists [xc0; x00; x02; x0a]. split; [reflexivity|discriminate].
Qed.

Lemma wlan0_qualifies : qualifies (machine ift) wlan0 ip_wifi.
Proof.
  exists [], (net ip_wifi (mask4 xff xff xff x00)), []. repeat split; [constructor|].
  eexists. repeat split. exists [xc6; x33; x64; x07]. split; [reflexivity|discriminate].
Qed.

Lemma sit0_only_IPv6 :
  Forall (fun a => To4 (addr_IP a) = None)
         [net ip_linklocal6 (mask6 8); net ip_global6 (mask6 8)].
Proof. repeat constructor. Qed.

Lemma lo_not_completes : forall j, In j [lo] -> ~ completes (machine ift) j.
Proof.
  intros j [<-|[]]. apply completes_not_passes, lo_passes.
Qed.

Lemma lo_tun0_not_complete : forall j, In j [lo; tun0] -> ~ completes (machine ift) j.
Proof.
  intros j [<-|[<-|[]]].
  - apply completes_not_passes, lo_passes.
  - now apply no_hardware_not_completes.
Qed.

End SampleFacts.

(** ** The claims *)

Section ClaimTheorems.
Import Net OS Main Spec Hosts.

(** C1, as the specification words it, fails: on a machine whose first
    qualifying interface is a tunnel without hardware address, the
    pair comes from the interface after it. *)
Lemma C1_first_qualifying_refuted : ~ Claims.first_qualifying_wins.
Proof.
  intros H.
  specialize (H vpn_first [lo] tun0 [eth0; wlan0] ip_vpn eq_refl).
  assert (Hr : ip_mac (resolve vpn_first) = Returned ("192.0.2.10", "aa:bb:cc:dd:ee:ff"))
    by reflexivity.
  rewrite H in Hr.
  - discriminate Hr.
  - intros j [<-|[]]. apply lo_passes.
  - apply tun0_qualifies.
  - exists eth0, ip_doc. split; [now left|apply eth0_qualifies].
Qed.

(** C1, amended: the resolver returns the (IPv4 address, hardware
    address) pair of the first qualifying interface that has a
    non-empty hardware address; qualifying interfaces enumerated before
    it whose hardware address is empty do not supply the result. *)
Theorem C1_first_complete_interface_wins cfg pre i post ip :
  interface_table cfg = inl (pre ++ i :: post) ->
  (forall j, In j pre -> ~ completes cfg j) ->
  qualifies cfg i ip ->
  HardwareAddr_of i <> [] ->
  resolve cfg
  = Returned (hostname_of cfg, IP_String ip, HardwareAddr_String (HardwareAddr_of i)).
Proof.
  intros Hift Hpre Hq Hm.
  exact (proj1 (resolve_first_complete cfg pre i post ip Hift Hpre Hq Hm)).
Qed.

Lemma C1_witness :
  resolve vpn_first = Returned ("host-a", "192.0.2.10", "aa:bb:cc:dd:ee:ff").
Proof.
  apply (C1_first_complete_interface_wins vpn_first [lo; tun0] eth0 [wlan0] ip_doc).
  - reflexivity.
  - apply lo_tun0_not_complete.
  - apply eth0_qualifies.
  - discriminate.
Defined.

(** C2: the interfaces asked for their addresses are exactly those up
    to and including the first one that supplies both an IPv4 address
    and a hardware address; when an interface leaves a field missing
    (no qualifying address, or an empty hardware address) the next
    interface is asked, and with no interface supplying both, all are. *)
Theorem C2_stops_when_both_found cfg ifs :
  interface_table cfg = inl ifs ->
  (forall pre i post,
      ifs = pre ++ i :: post ->
      (forall j, In j pre -> ~ completes cfg j) ->
      completes cfg i ->
      queried cfg = pre ++ [i])
  /\ (forall pre i nxt post ip,
        ifs = pre ++ i :: nxt :: post ->
        (forall j, In j pre -> ~ completes cfg j) ->
        qualifies cfg i ip ->
        HardwareAddr_of i = [] ->
        exists k, queried cfg = pre ++ i :: nxt :: k)
  /\ ((forall j, In j ifs -> ~ completes cfg j) -> queried cfg = ifs).
Proof.
  intros Hift. repeat split.
  - intros pre i post -> Hpre [(ip & Hq) Hm].
    exact (proj2 (resolve_first_complete cfg pre i post ip Hift Hpre Hq Hm)).
  - intros pre i nxt post ip -> Hpre _ Hm.
    apply (queried_continues cfg pre i nxt post Hift Hpre).
    now apply no_hardware_not_completes.
  - intros Hall. now apply queried_all.
Qed.

Lemma C2_witness :
  queried vpn_first = [lo; tun0] ++ [eth0]
  /\ (exists k, queried vpn_first = [lo] ++ tun0 :: eth0 :: k)
  /\ queried vpn_then_v6 = [lo; tun0; sit0].
Proof.
  destruct (C2_stops_when_both_found vpn_first [lo; tun0; eth0; wlan0] eq_refl)
    as (Hstop & Hnext & _).
  destruct (C2_stops_when_both_found vpn_then_v6 [lo; tun0; sit0] eq_refl)
    as (_ & _ & Hall).
  split; [|split].
  - apply (Hstop [lo; tun0] eth0 [wlan0] eq_refl).
    + apply lo_tun0_not_complete.
    + split; [exists ip_doc; apply eth0_qualifies|discriminate].
  - apply (Hnext [lo] tun0 eth0 [wlan0] ip_vpn eq_refl).
    + apply lo_not_completes.
    + apply tun0_qualifies.
    + reflexivity.
  - apply Hall. intros j [<-|[<-|[<-|[]]]].
    + apply completes_not_passes, lo_passes.
    + now apply no_hardware_not_completes.
    + apply completes_not_passes. unfold passes_over. simpl.
      repeat constructor; apply not_IPv4_unqualified; reflexivity.
Defined.

(** C3: when the interface enumeration fails, [getSystemInfo] ends the
    process with exit status 1 right after that one call: nothing is
    returned, the enumeration is not tried again and no interface is
    asked for its addresses. *)
Theorem C3_enumeration_failure_is_fatal w e :
  interface_table (config w) = inr e ->
  getSystemInfo w
  = (Exited 1%Z,
     {| config := config w;
        trace := trace w ++ [Call_Hostname; Call_Interfaces; Call_Fatal e] |}).
Proof. apply getSystemInfo_fatal. Qed.

Lemma C3_witness :
  getSystemInfo (boot no_table)
  = (Exited 1%Z,
     {| config := no_table;
        trace := [] ++ [Call_Hostname; Call_Interfaces;
                        Call_Fatal "route ip+net: netlinkrib: permission denied"] |}).
Proof.
  apply (C3_enumeration_failure_is_fatal (boot no_table)). reflexivity.
Defined.

(** C4: when no interface has a qualifying (non-loopback IPv4) address,
    the resolver returns normally with both the address and the
    hardware address empty. *)
Theorem C4_nothing_qualifies_gives_empty cfg ifs :
  interface_table cfg = inl ifs ->
  (forall j, In j ifs -> passes_over cfg j) ->
  resolve cfg = Returned (hostname_of cfg, EmptyString, EmptyString).
Proof.
  intros Hift Hall. rewrite (resolve_ok _ _ Hift).
  assert (Hnone : forall j, In j ifs -> ~ completes cfg j).
  { intros j Hj. now apply completes_not_passes, Hall. }
  destruct (scan_prefix cfg ifs unset eq_refl Hnone) as [_ Hrest].
  specialize (Hrest []). rewrite app_nil_r in Hrest.
  rewrite Hrest. simpl fst. rewrite (after_pass cfg ifs unset Hall). reflexivity.
Qed.

Lemma C4_witness :
  resolve only_loopback = Returned ("host-a", EmptyString, EmptyString).
Proof.
  apply (C4_nothing_qualifies_gives_empty only_loopback [lo] eq_refl).
  intros j [<-|[]]. apply lo_passes.
Defined.


(** C6: a failing hostname query is not fatal.  The hostname field is
    then empty, and the address and hardware address (or the fatal
    exit decided by the interface enumeration) are the same whatever
    the hostname query answers. *)
Theorem C6_hostname_failure_nonfatal cfg e :
  hostname_query cfg = inr e ->
  (forall ifs, interface_table cfg = inl ifs ->
               exists ip mac, resolve cfg = Returned (EmptyString, ip, mac))
  /\ (forall q, ip_mac (resolve (with_hostname q cfg)) = ip_mac (resolve cfg)).
Proof.
  intros He. split.
  - intros ifs Hift. rewrite (resolve_ok _ _ Hift). unfold hostname_of. rewrite He.
    eexists _, _. reflexivity.
  - intros q. destruct (interface_table cfg) as [ifs|e'] eqn:Hift.
    + rewrite (resolve_ok cfg ifs Hift), (resolve_ok (with_hostname q cfg) ifs Hift).
      reflexivity.
    + rewrite (resolve_fatal cfg e' Hift), (resolve_fatal (with_hostname q cfg) e' Hift).
      reflexivity.
Qed.

Lemma C6_witness :
  (forall ifs, interface_table nameless = inl ifs ->
               exists ip mac, resolve nameless = Returned (EmptyString, ip, mac))
  /\ (forall q, ip_mac (resolve (with_hostname q nameless)) = ip_mac (resolve nameless)).
Proof.
  apply (C6_hostname_failure_nonfatal nameless "uname: operation not permitted").
  reflexivity.
Defined.

(** C7: when the first interface with a qualifying address carries
    192.0.2.10 and has hardware address aa:bb:cc:dd:ee:ff, the resolver
    returns exactly that pair; in particular when it is the only
    qualifying address of the list. *)
Theorem C7_documentation_pair cfg pre i post before n after :
  interface_table cfg = inl (pre ++ i :: post) ->
  (forall j, In j pre -> passes_over cfg j) ->
  addr_table cfg (Index i) = inl (before ++ Addr_IPNet n :: after) ->
  Forall unqualified before ->
  To4 (IP_of n) = Some [xc0; x00; x02; x0a] ->
  HardwareAddr_of i = [xaa; xbb; xcc; xdd; xee; xff] ->
  resolve cfg = Returned (hostname_of cfg, "192.0.2.10", "aa:bb:cc:dd:ee:ff").
Proof.
  intros Hift Hpre Ht Hb H4 Hm.
  assert (Hq : qualifies cfg i (IP_of n)).
  { exists before, (Addr_IPNet n), after. repeat split; auto.
    exists n. repeat split. exists [xc0; x00; x02; x0a]. split; [exact H4|discriminate]. }
  assert (Hne : HardwareAddr_of i <> []) by (rewrite Hm; discriminate).
  assert (Hnone : forall j, In j pre -> ~ completes cfg j).
  { intros j Hj. now apply completes_not_passes, Hpre. }
  rewrite (proj1 (resolve_first_complete cfg pre i post _ Hift Hnone Hq Hne)).
  rewrite (IP_String_To4 _ _ H4), Hm. reflexivity.
Qed.

Lemma C7_witness :
  resolve plain = Returned ("host-a", "192.0.2.10", "aa:bb:cc:dd:ee:ff").
Proof.
  apply (C7_documentation_pair plain [lo] eth0 []
           [net ip_linklocal6 (mask6 8)]
           {| IP_of := ip_doc; Mask := mask4 xff xff xff x00 |} []).
  - reflexivity.
  - intros j [<-|[]]. apply lo_passes.
  - reflexivity.
  - repeat constructor. apply not_IPv4_unqualified. reflexivity.
  - reflexivity.
  - reflexivity.
Defined.

(** C8: an interface all of whose addresses are IPv6 (none has an IPv4
    form) is skipped.  The outcome is the one obtained without it in
    the list, a returned address and hardware address come from a
    qualifying interface (which it is not), and when the loop reaches
    it the next interface is asked for its addresses. *)
Theorem C8_ipv6_only_interface_skipped cfg pre i post addrs :
  interface_table cfg = inl (pre ++ i :: post) ->
  addr_table cfg (Index i) = inl addrs ->
  Forall (fun a => To4 (addr_IP a) = None) addrs ->
  resolve cfg = resolve (with_interfaces (pre ++ post) cfg)
  /\ (forall a, ~ qualifies cfg i a)
  /\ (forall hostname ip mac,
        resolve cfg = Returned (hostname, ip, mac) -> ip <> EmptyString ->
        exists j a, In j (pre ++ post) /\ qualifies cfg j a
                    /\ ip = IP_String a
                    /\ mac = HardwareAddr_String (HardwareAddr_of j))
  /\ (forall nxt post',
        post = nxt :: post' ->
        (forall j, In j pre -> ~ completes cfg j) ->
        exists k, queried cfg = pre ++ i :: nxt :: k).
Proof.
  intros Hift Ht H6.
  assert (Hp : passes_over cfg i).
  { unfold passes_over. rewrite Ht. revert H6. apply Forall_impl.
    intros a. apply not_IPv4_unqualified. }
  assert (Hdrop := resolve_drop_passed cfg pre i post Hift Hp).
  split; [exact Hdrop|]. split; [|split].
  - intros a. now apply passes_not_qualifies.
  - intros hostname ip mac Hr Hne. rewrite Hdrop in Hr.
    destruct (resolve_source _ _ _ _ Hr Hne) as (ifs & j & a & Hi & Hj & Hq & Hip & Hmac).
    simpl in Hi. injection Hi as <-. exists j, a. auto.
  - intros nxt post' -> Hpre.
    apply (queried_continues cfg pre i nxt post' Hift Hpre).
    now apply completes_not_passes.
Qed.

Lemma C8_witness :
  resolve v6_between = resolve (with_interfaces ([lo] ++ [eth0]) v6_between)
  /\ (forall a, ~ qualifies v6_between sit0 a)
  /\ (forall hostname ip mac,
        resolve v6_between = Returned (hostname, ip, mac) -> ip <> EmptyString ->
        exists j a, In j ([lo] ++ [eth0]) /\ qualifies v6_between j a
                    /\ ip = IP_String a
                    /\ mac = HardwareAddr_String (HardwareAddr_of j))
  /\ (forall nxt post',
        [eth0] = nxt :: post' ->
        (forall j, In j [lo] -> ~ completes v6_between j) ->
        exists k, queried v6_between = [lo] ++ sit0 :: nxt :: k).
Proof.
  apply (C8_ipv6_only_interface_skipped v6_between [lo] sit0 [eth0]
           [net ip_linklocal6 (mask6 8); net ip_global6 (mask6 8)]).
  - reflexivity.
  - reflexivity.
  - apply sit0_only_IPv6.
Defined.

(** C9: whenever the resolver returns a non-empty IPv4 address, that
    address is the first qualifying address of some interface of the
    list and the returned hardware address is the hardware address of
    that same interface. *)
Theorem C9_pair_from_one_interface cfg hostname ip mac :
  resolve cfg = Returned (hostname, ip, mac) ->
  ip <> EmptyString ->
  exists ifs i a,
    interface_table cfg = inl ifs /\ In i ifs /\ qualifies cfg i a
    /\ ip = IP_String a /\ mac = HardwareAddr_String (HardwareAddr_of i).
Proof. apply resolve_source. Qed.

Lemma C9_witness :
  exists ifs i a,
    interface_table vpn_then_v6 = inl ifs /\ In i ifs /\ qualifies vpn_then_v6 i a
    /\ "10.8.0.1" = IP_String a /\ EmptyString = HardwareAddr_String (HardwareAddr_of i).
Proof.
  apply (C9_pair_from_one_interface vpn_then_v6 "host-a" "10.8.0.1" EmptyString).
  - reflexivity.
  - discriminate.
Defined.

(** C10: an interface whose address query fails is skipped without
    ending the process.  The outcome is the one obtained without it in
    the list, the resolver returns, a qualifying interface after it
    still yields a non-empty address, and when the loop reaches it the
    next interface is asked for its addresses. *)
Theorem C10_failed_address_query_skipped cfg pre i post e :
  interface_table cfg = inl (pre ++ i :: post) ->
  addr_table cfg (Index i) = inr e ->
  resolve cfg = resolve (with_interfaces (pre ++ post) cfg)
  /\ (exists ip mac, resolve cfg = Returned (hostname_of cfg, ip, mac))
  /\ (forall j a, In j post -> qualifies cfg j a ->
                  exists ip mac,
                    resolve cfg = Returned (hostname_of cfg, ip, mac)
                    /\ ip <> EmptyString)
  /\ (forall nxt post',
        post = nxt :: post' ->
        (forall j, In j pre -> ~ completes cfg j) ->
        exists k, queried cfg = pre ++ i :: nxt :: k).
Proof.
  intros Hift Ht.
  assert (Hp : passes_over cfg i) by (unfold passes_over; now rewrite Ht).
  split; [|split; [|split]].
  - exact (resolve_drop_passed cfg pre i post Hift Hp).
  - rewrite (resolve_ok _ _ Hift). eexists _, _. reflexivity.
  - intros j a Hj Hq.
    apply (resolve_finds_ip cfg _ j a Hift); [|exact Hq].
    apply in_or_app. right. now right.
  - intros nxt post' -> Hpre.
    apply (queried_continues cfg pre i nxt post' Hift Hpre).
    now apply completes_not_passes.
Qed.

Lemma C10_witness :
  resolve flaky = resolve (with_interfaces ([lo] ++ [eth0]) flaky)
  /\ (exists ip mac, resolve flaky = Returned (hostname_of flaky, ip, mac))
  /\ (forall j a, In j [eth0] -> qualifies flaky j a ->
                  exists ip mac,
                    resolve flaky = Returned (hostname_of flaky, ip, mac)
                    /\ ip <> EmptyString)
  /\ (forall nxt post',
        [eth0] = nxt :: post' ->
        (forall j, In j [lo] -> ~ completes flaky j) ->
        exists k, queried flaky = [lo] ++ gone0 :: nxt :: k).
Proof.
  apply (C10_failed_address_query_skipped flaky [lo] gone0 [eth0]
           "no such network interface").
  - reflexivity.
  - reflexivity.
Defined.

End ClaimTheorems.

(** ** The printed forms, read back *)

Section Printing.
Import Net More.

Lemma sapp_assoc (a b c : string) :
  String.append (String.append a b) c = String.append a (String.append b c).
Proof. induction a as [|x a IH]; simpl; [reflexivity|now rewrite IH]. Qed.

Lemma slength_app (a b : string) :
  String.length (String.append a b) = String.length a + String.length b.
Proof. induction a as [|x a IH]; simpl; [reflexivity|now rewrite IH]. Qed.

Lemma appendDecimal_app b x :
  Fmt.appendDecimal b x = String.append b (Fmt.appendDecimal EmptyString x).
Proof.
  unfold Fmt.appendDecimal, Fmt.push.
  destruct (100 <=? x)%N; destruct (10 <=? x)%N; simpl; now rewrite ?sapp_assoc.
Qed.

Lemma appendByteHex_app b x : Fmt.appendByteHex b x = String.append b (hex2 x).
Proof. unfold hex2, Fmt.appendByteHex, Fmt.push. simpl. now rewrite sapp_assoc. Qed.

Lemma dec_length b : 1 <= String.length (dec b) <= 3.
Proof.
  unfold dec, Fmt.appendDecimal, Fmt.push.
  destruct (100 <=? Byte.to_N b)%N; destruct (10 <=? Byte.to_N b)%N; simpl; lia.
Qed.

Lemma hex2_length b : String.length (hex2 b) = 2.
Proof. reflexivity. Qed.

(** The dotted quad as four decimal fields and three dots. *)
Lemma string4_fields a b c d :
  string4 [a; b; c; d]
  = String.append (dec a)
      (String "." (String.append (dec b)
         (String "." (String.append (dec c) (String "." (dec d)))))).
Proof.
  unfold string4, Fmt.push. simpl nth. fold (dec a).
  rewrite (appendDecimal_app _ (Byte.to_N d)), (appendDecimal_app _ (Byte.to_N c)),
    (appendDecimal_app _ (Byte.to_N b)).
  fold (dec b) (dec c) (dec d). rewrite !sapp_assoc. reflexivity.
Qed.

Lemma string4_length a b c d : 7 <= String.length (string4 [a; b; c; d]) <= 15.
Proof.
  rewrite string4_fields. simpl. rewrite !slength_app. simpl. rewrite !slength_app. simpl.
  rewrite slength_app. simpl.
  pose proof (dec_length a). pose proof (dec_length b).
  pose proof (dec_length c). pose proof (dec_length d). lia.
Qed.

Lemma parse_dec_field b rest :
  parse_dec 0 (String.append (dec b) (String "." rest)) = (Byte.to_N b, String "." rest).
Proof. destruct b; reflexivity. Qed.

Lemma parse_dec_last b : parse_dec 0 (dec b) = (Byte.to_N b, EmptyString).
Proof. destruct b; reflexivity. Qed.

Lemma parse4_string4 a b c d :
  parse4 (string4 [a; b; c; d]) = map Byte.to_N [a; b; c; d].
Proof.
  rewrite string4_fields. unfold parse4.
  rewrite parse_dec_field. simpl skip1. rewrite parse_dec_field. simpl skip1.
  rewrite parse_dec_field. simpl skip1. rewrite parse_dec_last. reflexivity.
Qed.

Lemma to_N_inj a b : Byte.to_N a = Byte.to_N b -> a = b.
Proof.
  intros H. pose proof (Byte.of_to_N a) as Ha. rewrite H, Byte.of_to_N in Ha.
  now injection Ha.
Qed.

Lemma four_bytes (p : list byte) :
  List.length p = 4 -> exists a b c d, p = [a; b; c; d].
Proof.
  destruct p as [|a [|b [|c [|d [|e p]]]]]; try discriminate.
  intros _. now exists a, b, c, d.
Qed.

Lemma string4_inj p q :
  List.length p = 4 -> List.length q = 4 -> string4 p = string4 q -> p = q.
Proof.
  intros Hp Hq H.
  destruct (four_bytes p Hp) as (a & b & c & d & ->).
  destruct (four_bytes q Hq) as (a' & b' & c' & d' & ->).
  apply (f_equal parse4) in H. rewrite !parse4_string4 in H. simpl in H.
  injection H as Ha Hb Hc Hd.
  apply to_N_inj in Ha, Hb, Hc, Hd. now subst.
Qed.

Lemma To4_Some_length ip p4 : To4 ip = Some p4 -> List.length p4 = 4.
Proof.
  unfold To4. destruct (List.length ip =? IPv4len) eqn:E4.
  - intros H. injection H as <-. now apply Nat.eqb_eq.
  - destruct (List.length ip =? IPv6len) eqn:E6; simpl; [|discriminate].
    apply Nat.eqb_eq in E6.
    destruct (isZeros (slice ip 0 10) && Byte.eqb (nth 10 ip x00) xff
              && Byte.eqb (nth 11 ip x00) xff); [|discriminate].
    intros H. injection H as <-. unfold slice.
    rewrite length_firstn, length_skipn, E6. reflexivity.
Qed.

(** A dotted quad starts with 127 and a dot only for a first byte 127. *)
Lemma string4_prefix_127 a b c d :
  a <> x7f -> String.prefix "127." (string4 [a; b; c; d]) = false.
Proof.
  intros Ha. rewrite string4_fields.
  destruct a; try reflexivity. now contradiction Ha.
Qed.

(** The accumulator of the hardware-address loop is only ever extended,
    and past the first byte the position does not matter. *)
Lemma HardwareAddr_loop_app a : forall i buf,
  HardwareAddr_loop a i buf = String.append buf (HardwareAddr_loop a i EmptyString).
Proof.
  induction a as [|b rest IH]; intros i buf; simpl.
  - clear. induction buf as [|x buf IH]; simpl; [reflexivity|now rewrite <- IH].
  - rewrite IH, (IH _ (Fmt.appendByteHex _ b)), !appendByteHex_app.
    destruct (0 <? i); unfold Fmt.push; simpl; now rewrite !sapp_assoc.
Qed.

Lemma HardwareAddr_loop_tail rest : forall i,
  HardwareAddr_loop rest (S i) EmptyString = HardwareAddr_loop rest 1 EmptyString.
Proof.
  destruct rest as [|b rest]; intros i; [reflexivity|]. simpl.
  generalize (Fmt.appendByteHex (Fmt.push EmptyString ":") b). intros buf.
  revert i buf. induction rest as [|c rest IH]; intros i buf; [reflexivity|].
  simpl. rewrite (IH (S i)), (IH 1). reflexivity.
Qed.

Lemma byte_of_hex2 b rest :
  parse_groups (String ":" (String.append (hex2 b) rest)) = b :: parse_groups rest.
Proof. destruct b; reflexivity. Qed.

Lemma parse_groups_tail rest :
  parse_groups (HardwareAddr_loop rest 1 EmptyString) = rest.
Proof.
  induction rest as [|b rest IH]; [reflexivity|].
  simpl. rewrite HardwareAddr_loop_app, appendByteHex_app.
  change (parse_groups
            (String ":" (String.append (hex2 b) (HardwareAddr_loop rest 2 EmptyString)))
          = b :: rest).
  rewrite byte_of_hex2, (HardwareAddr_loop_tail rest 1), IH. reflexivity.
Qed.

Lemma parse_mac_String a : parse_mac (HardwareAddr_String a) = a.
Proof.
  destruct a as [|b rest]; [reflexivity|].
  unfold parse_mac, HardwareAddr_String. simpl List.length. simpl Nat.eqb. cbv iota.
  simpl HardwareAddr_loop. rewrite HardwareAddr_loop_app, appendByteHex_app.
  change (String.append EmptyString (hex2 b)) with (hex2 b).
  rewrite byte_of_hex2, parse_groups_tail. reflexivity.
Qed.

Lemma HardwareAddr_String_length a :
  a <> [] -> S (String.length (HardwareAddr_String a)) = 3 * List.length a.
Proof.
  destruct a as [|b rest]; [now intros H|]. intros _.
  unfold HardwareAddr_String. simpl List.length. simpl Nat.eqb. cbv iota.
  simpl HardwareAddr_loop. rewrite HardwareAddr_loop_app, slength_app, appendByteHex_app.
  simpl String.length at 1.
  assert (Htail : forall r, String.length (HardwareAddr_loop r 1 EmptyString)
                            = 3 * List.length r).
  { induction r as [|c r IH]; [reflexivity|].
    simpl HardwareAddr_loop. rewrite HardwareAddr_loop_app, slength_app, appendByteHex_app.
    rewrite HardwareAddr_loop_tail, IH. simpl. lia. }
  rewrite Htail. lia.
Qed.

End Printing.

(** ** More on the outer loop *)

Section MoreLoop.
Import Net OS Main Spec More.
Variable cfg : NetConfig.
Local Notation "'tbl'" := (addr_table cfg).

(** The interfaces asked are an initial part of the list. *)
Lemma scan_asked_prefix ifs : forall v,
  exists rest, ifs = snd (scan tbl ifs v) ++ rest.
Proof.
  induction ifs as [|i ifs IH]; intros v; [now exists []|]. simpl.
  destruct (addr_table cfg (Index i)) as [addrs|e].
  - destruct (both_found (forAddrs i addrs v)); [now exists ifs|].
    destruct (IH (forAddrs i addrs v)) as (rest & Hr).
    destruct (scan tbl ifs (forAddrs i addrs v)) as [r q]. simpl in *.
    exists rest. now rewrite <- Hr.
  - destruct (IH v) as (rest & Hr).
    destruct (scan tbl ifs v) as [r q]. simpl in *. exists rest. now rewrite <- Hr.
Qed.

(** A hardware address is never held without an address. *)
Lemma scan_mac_needs_ip ifs :
  macAddress (fst (scan tbl ifs unset)) <> EmptyString ->
  ipAddress (fst (scan tbl ifs unset)) <> EmptyString.
Proof.
  apply (scan_invariant cfg
           (fun u => macAddress u <> EmptyString -> ipAddress u <> EmptyString)).
  - intros H. now contradiction H.
  - intros j ip _ Hq _. exact (qualifies_IP_nonempty cfg j ip Hq).
Qed.

(** Ending with both variables set means some interface supplied both,
    and the first such one is where the list splits. *)
Lemma scan_complete_split ifs : forall v,
  both_found v = false ->
  both_found (fst (scan tbl ifs v)) = true ->
  exists pre i post a,
    ifs = pre ++ i :: post
    /\ (forall j, In j pre -> ~ completes cfg j)
    /\ qualifies cfg i a /\ HardwareAddr_of i <> [].
Proof.
  induction ifs as [|i ifs IH]; intros v Hv Hend.
  - simpl in Hend. congruence.
  - rewrite (scan_cons cfg _ _ _ Hv) in Hend.
    destruct (both_found (step tbl i v)) eqn:Hs.
    + destruct (iface_cases cfg i) as [Hp|(a & Hq)].
      * rewrite (step_pass cfg i v Hp) in Hs. congruence.
      * rewrite (step_qualifies cfg i a v Hq) in Hs.
        exists [], i, ifs, a. repeat split; auto.
        now apply (both_found_pair cfg i a Hq).
    + simpl in Hend. destruct (IH _ Hs Hend) as (pre & j & post & a & -> & Hpre & Hq & Hm).
      exists (i :: pre), j, post, a. repeat split; auto.
      intros k [<-|Hk]; [|now apply Hpre].
      intros [(b & Hb) Hne].
      rewrite (step_completes cfg i b v Hb Hne) in Hs. discriminate.
Qed.

(** Ending with a variable unset means no interface supplied both. *)
Lemma scan_incomplete_none ifs : forall v,
  both_found v = false ->
  both_found (fst (scan tbl ifs v)) = false ->
  forall j, In j ifs -> ~ completes cfg j.
Proof.
  induction ifs as [|i ifs IH]; intros v Hv Hend j Hj; [contradiction|].
  rewrite (scan_cons cfg _ _ _ Hv) in Hend.
  destruct (both_found (step tbl i v)) eqn:Hs; [simpl in Hend; congruence|].
  simpl in Hend. destruct Hj as [<-|Hj].
  - intros [(b & Hb) Hne]. rewrite (step_completes cfg i b v Hb Hne) in Hs. discriminate.
  - exact (IH _ Hs Hend j Hj).
Qed.

Lemma selected_false_unqualified a : selected a = false -> unqualified a.
Proof.
  intros H ip (n & -> & <- & Hq). apply test_iff in Hq.
  unfold selected, assert_IPNet in H. rewrite Hq in H. discriminate.
Qed.

Lemma offers_false_passes i : offers cfg i = false -> passes_over cfg i.
Proof.
  unfold offers, passes_over. destruct (addr_table cfg (Index i)) as [addrs|e]; [|auto].
  intros H. apply Forall_forall. intros a Ha. apply selected_false_unqualified.
  destruct (selected a) eqn:E; [|reflexivity].
  assert (Hex : existsb selected addrs = true) by (apply existsb_exists; now exists a).
  congruence.
Qed.

(** Only the interfaces that offer an address matter to the variables
    the loop ends with. *)
Lemma scan_filter_offers ifs : forall v,
  both_found v = false ->
  fst (scan tbl ifs v) = fst (scan tbl (filter (offers cfg) ifs) v).
Proof.
  induction ifs as [|i ifs IH]; intros v Hv; [reflexivity|]. simpl filter.
  destruct (offers cfg i) eqn:Ho.
  - rewrite !(scan_cons cfg _ _ _ Hv).
    destruct (both_found (step tbl i v)) eqn:Hs; [reflexivity|]. simpl. now apply IH.
  - rewrite (scan_cons cfg _ _ _ Hv), (step_pass cfg i v (offers_false_passes i Ho)), Hv.
    simpl. now apply IH.
Qed.

Lemma forAddrs_key i1 i2 addrs v :
  HardwareAddr_of i1 = HardwareAddr_of i2 -> forAddrs i1 addrs v = forAddrs i2 addrs v.
Proof.
  intros H. induction addrs as [|a addrs IH]; [reflexivity|]. simpl.
  destruct (assert_IPNet a) as [n|]; [|exact IH].
  destruct (negb (IsLoopback (IP_of n)) && not_nil (To4 (IP_of n))); [|exact IH].
  now rewrite H.
Qed.

(** The loop reads nothing of an interface but its index and its
    hardware address. *)
Lemma scan_key ifs1 : forall ifs2 v,
  map key ifs1 = map key ifs2 ->
  fst (scan tbl ifs1 v) = fst (scan tbl ifs2 v).
Proof.
  induction ifs1 as [|i1 ifs1 IH]; intros [|i2 ifs2] v H; try discriminate; [reflexivity|].
  simpl in H. injection H as Hi Hm Hrest. simpl. rewrite <- Hi.
  destruct (addr_table cfg (Index i1)) as [addrs|e].
  - rewrite <- (forAddrs_key i1 i2 addrs v Hm).
    destruct (both_found (forAddrs i1 addrs v)); [reflexivity|].
    specialize (IH ifs2 (forAddrs i1 addrs v) Hrest).
    destruct (scan tbl ifs1 (forAddrs i1 addrs v)), (scan tbl ifs2 (forAddrs i1 addrs v)).
    exact IH.
  - specialize (IH ifs2 v Hrest).
    destruct (scan tbl ifs1 v), (scan tbl ifs2 v). exact IH.
Qed.

Lemma both_found_fields v :
  both_found v = true <-> ipAddress v <> EmptyString /\ macAddress v <> EmptyString.
Proof.
  unfold both_found. rewrite andb_true_iff, !negb_true_iff, !String.eqb_neq. tauto.
Qed.

End MoreLoop.

(** ** Further consequences for the resolver *)

Section MoreResolver.
Import Net OS Main Spec More.
Variable cfg : NetConfig.

(** A returned address is the dotted quad of four bytes, the first of
    which is not 127. *)
Lemma resolve_ip_shape hostname ip mac :
  resolve cfg = Returned (hostname, ip, mac) -> ip <> EmptyString ->
  exists a b c d, a <> x7f /\ ip = string4 [a; b; c; d].
Proof.
  intros Hr Hne.
  destruct (resolve_source cfg _ _ _ Hr Hne) as (ifs & i & x & _ & _ & Hq & -> & _).
  destruct Hq as (_ & y & _ & _ & _ & (n & _ & _ & (p4 & Hp & H127))).
  destruct (four_bytes p4 (To4_Some_length _ _ Hp)) as (a & b & c & d & ->).
  exists a, b, c, d. split; [exact H127|]. exact (IP_String_To4 _ _ Hp).
Qed.

(** A returned hardware address comes from the first interface that
    supplies both fields, and the loop stopped there. *)
Lemma resolve_complete_split hostname ip mac :
  resolve cfg = Returned (hostname, ip, mac) -> mac <> EmptyString ->
  exists ifs pre i post a,
    interface_table cfg = inl ifs
    /\ ifs = pre ++ i :: post
    /\ (forall j, In j pre -> ~ completes cfg j)
    /\ qualifies cfg i a /\ HardwareAddr_of i <> []
    /\ ip = IP_String a /\ mac = HardwareAddr_String (HardwareAddr_of i)
    /\ queried cfg = pre ++ [i].
Proof.
  intros Hr Hne. destruct (interface_table cfg) as [ifs|e] eqn:Hift.
  - pose proof Hr as Hr'. rewrite (resolve_ok _ _ Hift) in Hr'. injection Hr' as _ Hip Hmac.
    assert (Hend : both_found (fst (scan (addr_table cfg) ifs unset)) = true).
    { apply both_found_fields. rewrite Hmac. split; [|exact Hne].
      apply scan_mac_needs_ip. now rewrite Hmac. }
    destruct (scan_complete_split cfg ifs unset eq_refl Hend)
      as (pre & i & post & a & -> & Hpre & Hq & Hm).
    destruct (resolve_first_complete cfg pre i post a Hift Hpre Hq Hm) as [Hres Hasked].
    rewrite Hres in Hr. injection Hr as _ <- <-.
    exists (pre ++ i :: post), pre, i, post, a. repeat split; auto.
  - rewrite (resolve_fatal cfg e Hift) in Hr. discriminate.
Qed.

Lemma resolve_incomplete_none hostname ip ifs :
  interface_table cfg = inl ifs ->
  resolve cfg = Returned (hostname, ip, EmptyString) ->
  forall j, In j ifs -> ~ completes cfg j.
Proof.
  intros Hift Hr. rewrite (resolve_ok _ _ Hift) in Hr. injection Hr as _ _ Hmac.
  apply (scan_incomplete_none cfg ifs unset eq_refl).
  destruct (both_found (fst (scan (addr_table cfg) ifs unset))) eqn:E; [|reflexivity].
  apply both_found_fields in E as [_ E]. now contradiction E.
Qed.

End MoreResolver.

(** ** Facts about the machine with two tunnels *)

Section TunnelFacts.
Import Net OS Main Spec Hosts More.

Lemma two_tunnels_lo_passes : passes_over two_tunnels lo.
Proof.
  unfold passes_over. simpl. repeat constructor.
  - apply (loopback_unqualified _ [x7f; x00; x00; x01]); reflexivity.
  - apply not_IPv4_unqualified. reflexivity.
Qed.

Lemma two_tunnels_sit0_passes : passes_over two_tunnels sit0.
Proof.
  unfold passes_over. simpl. repeat constructor; apply not_IPv4_unqualified; reflexivity.
Qed.

Lemma two_tunnels_tun1_qualifies : qualifies two_tunnels tun1 ip_vpn2.
Proof.
  exists [], (net ip_vpn2 (mask4 xff xff xff x00)), []. repeat split; [constructor|].
  eexists. repeat split. exists [x0a; x09; x00; x01]. split; [reflexivity|discriminate].
Qed.

End TunnelFacts.

(** ** Further properties of [getSystemInfo] *)

Section FurtherProperties.
Import Net OS Main Spec Hosts More.

(** X1: the resolver either exits with status 1, which happens exactly
    when the interface enumeration fails, or returns a triple whose
    hostname is the answer of the hostname query (empty on failure). *)
Theorem X1_exit_or_return cfg :
  (exists e, interface_table cfg = inr e /\ resolve cfg = Exited 1%Z)
  \/ (exists ifs ip mac,
        interface_table cfg = inl ifs
        /\ resolve cfg = Returned (hostname_of cfg, ip, mac)).
Proof.
  destruct (interface_table cfg) as [ifs|e] eqn:Hift.
  - right. exists ifs. rewrite (resolve_ok _ _ Hift). eexists _, _. split; reflexivity.
  - left. exists e. split; [reflexivity|]. exact (resolve_fatal cfg e Hift).
Qed.

(** X2: the interfaces asked for their addresses form an initial part of
    the enumerated list: they are asked in enumeration order, none is
    skipped on the way and none is asked twice. *)
Theorem X2_asked_in_order cfg ifs :
  interface_table cfg = inl ifs ->
  exists rest, ifs = queried cfg ++ rest.
Proof.
  intros Hift. rewrite (queried_ok _ _ Hift). apply scan_asked_prefix.
Qed.

Lemma X2_witness : exists rest, [lo; tun0; eth0; wlan0] = queried vpn_first ++ rest.
Proof. apply (X2_asked_in_order vpn_first). reflexivity. Defined.

(** X3: the calls of one run, in order: the hostname query, one
    interface enumeration, then either the fatal exit (enumeration
    failed) or address queries only.  What was recorded before the run
    is left as it was. *)
Theorem X3_calls_of_a_run w :
  trace (snd (getSystemInfo w))
  = trace w ++ Call_Hostname :: Call_Interfaces ::
      match interface_table (config w) with
      | inl _ => map Call_Addrs (queried (config w))
      | inr e => [Call_Fatal e]
      end.
Proof.
  destruct (interface_table (config w)) as [ifs|e] eqn:Hift.
  - rewrite (getSystemInfo_ok w ifs Hift), (queried_ok _ _ Hift). reflexivity.
  - rewrite (getSystemInfo_fatal w e Hift). reflexivity.
Qed.

(** X4: a hardware address is never returned without an IPv4 address. *)
Theorem X4_mac_needs_ip cfg hostname ip mac :
  resolve cfg = Returned (hostname, ip, mac) ->
  mac <> EmptyString -> ip <> EmptyString.
Proof.
  intros Hr Hne.
  destruct (resolve_complete_split cfg _ _ _ Hr Hne)
    as (ifs & pre & i & post & a & _ & _ & _ & Hq & _ & -> & _).
  exact (qualifies_IP_nonempty cfg i a Hq).
Qed.

Lemma X4_witness : "192.0.2.10" <> EmptyString.
Proof.
  apply (X4_mac_needs_ip plain "host-a" "192.0.2.10" "aa:bb:cc:dd:ee:ff").
  - reflexivity.
  - discriminate.
Defined.

(** X5: the returned address never lies in 127.0.0.0/8: its text never
    starts with 127 followed by a dot. *)
Theorem X5_never_loopback cfg hostname ip mac :
  resolve cfg = Returned (hostname, ip, mac) ->
  String.prefix "127." ip = false.
Proof.
  intros Hr. destruct (string_dec ip EmptyString) as [->|Hne]; [reflexivity|].
  destruct (resolve_ip_shape cfg _ _ _ Hr Hne) as (a & b & c & d & Ha & ->).
  now apply string4_prefix_127.
Qed.

Lemma X5_witness : String.prefix "127." "192.0.2.10" = false.
Proof.
  apply (X5_never_loopback plain "host-a" "192.0.2.10" "aa:bb:cc:dd:ee:ff").
  reflexivity.
Defined.

(** X6: a returned non-empty address is a dotted quad: the decimal
    forms of four bytes separated by dots, between 7 and 15 characters
    long. *)
Theorem X6_ip_is_dotted_quad cfg hostname ip mac :
  resolve cfg = Returned (hostname, ip, mac) ->
  ip <> EmptyString ->
  (exists a b c d,
      ip = String.append (dec a)
             (String "." (String.append (dec b)
                (String "." (String.append (dec c) (String "." (dec d)))))))
  /\ 7 <= String.length ip <= 15.
Proof.
  intros Hr Hne.
  destruct (resolve_ip_shape cfg _ _ _ Hr Hne) as (a & b & c & d & _ & ->).
  split; [|apply string4_length].
  exists a, b, c, d. apply string4_fields.
Qed.

Lemma X6_witness :
  (exists a b c d,
      "10.8.0.1" = String.append (dec a)
             (String "." (String.append (dec b)
                (String "." (String.append (dec c) (String "." (dec d)))))))
  /\ 7 <= String.length "10.8.0.1" <= 15.
Proof.
  apply (X6_ip_is_dotted_quad vpn_then_v6 "host-a" "10.8.0.1" EmptyString).
  - reflexivity.
  - discriminate.
Defined.

(** X7: a returned non-empty hardware address is the text of the
    hardware address of an enumerated interface, three characters per
    byte less one (two hex digits per byte, colons between). *)
Theorem X7_mac_length cfg hostname ip mac :
  resolve cfg = Returned (hostname, ip, mac) ->
  mac <> EmptyString ->
  exists ifs i,
    interface_table cfg = inl ifs /\ In i ifs
    /\ mac = HardwareAddr_String (HardwareAddr_of i)
    /\ S (String.length mac) = 3 * List.length (HardwareAddr_of i).
Proof.
  intros Hr Hne.
  destruct (resolve_complete_split cfg _ _ _ Hr Hne)
    as (ifs & pre & i & post & a & Hift & -> & _ & _ & Hm & _ & -> & _).
  exists (pre ++ i :: post), i. repeat split; auto.
  - apply in_or_app. right. now left.
  - now apply HardwareAddr_String_length.
Qed.

Lemma X7_witness :
  exists ifs i,
    interface_table plain = inl ifs /\ In i ifs
    /\ "aa:bb:cc:dd:ee:ff" = HardwareAddr_String (HardwareAddr_of i)
    /\ S (String.length "aa:bb:cc:dd:ee:ff") = 3 * List.length (HardwareAddr_of i).
Proof.
  apply (X7_mac_length plain "host-a" "192.0.2.10" "aa:bb:cc:dd:ee:ff").
  - reflexivity.
  - discriminate.
Defined.

(** X8: when a hardware address is returned, the list splits at the
    first interface that has both a qualifying address and a hardware
    address: both returned fields are that interface's, and it is the
    last interface asked for its addresses. *)
Theorem X8_complete_result_source cfg hostname ip mac :
  resolve cfg = Returned (hostname, ip, mac) ->
  mac <> EmptyString ->
  exists ifs pre i post a,
    interface_table cfg = inl ifs
    /\ ifs = pre ++ i :: post
    /\ (forall j, In j pre -> ~ completes cfg j)
    /\ qualifies cfg i a /\ HardwareAddr_of i <> []
    /\ ip = IP_String a /\ mac = HardwareAddr_String (HardwareAddr_of i)
    /\ queried cfg = pre ++ [i].
Proof. apply resolve_complete_split. Qed.

Lemma X8_witness :
  exists ifs pre i post a,
    interface_table vpn_first = inl ifs
    /\ ifs = pre ++ i :: post
    /\ (forall j, In j pre -> ~ completes vpn_first j)
    /\ qualifies vpn_first i a /\ HardwareAddr_of i <> []
    /\ "192.0.2.10" = IP_String a
    /\ "aa:bb:cc:dd:ee:ff" = HardwareAddr_String (HardwareAddr_of i)
    /\ queried vpn_first = pre ++ [i].
Proof.
  apply (X8_complete_result_source vpn_first "host-a").
  - reflexivity.
  - discriminate.
Defined.

(** X9: when the returned hardware address is empty, no interface of
    the list has both a qualifying address and a hardware address, and
    every interface was asked for its addresses. *)
Theorem X9_empty_mac_after_full_scan cfg ifs hostname ip :
  interface_table cfg = inl ifs ->
  resolve cfg = Returned (hostname, ip, EmptyString) ->
  (forall j, In j ifs -> ~ completes cfg j) /\ queried cfg = ifs.
Proof.
  intros Hift Hr.
  assert (Hnone := resolve_incomplete_none cfg hostname ip ifs Hift Hr).
  split; [exact Hnone|]. now apply queried_all.
Qed.

Lemma X9_witness :
  (forall j, In j [lo; tun0; sit0] -> ~ completes vpn_then_v6 j)
  /\ queried vpn_then_v6 = [lo; tun0; sit0].
Proof.
  apply (X9_empty_mac_after_full_scan vpn_then_v6 [lo; tun0; sit0] "host-a" "10.8.0.1").
  - reflexivity.
  - reflexivity.
Defined.

(** X10: when no interface has both a qualifying address and a hardware
    address, the address returned is that of the last qualifying
    interface of the list (each later one overwrites the earlier), with
    an empty hardware address. *)
Theorem X10_last_qualifying_without_mac cfg pre i post ip :
  interface_table cfg = inl (pre ++ i :: post) ->
  (forall j, In j pre -> ~ completes cfg j) ->
  qualifies cfg i ip ->
  HardwareAddr_of i = [] ->
  (forall j, In j post -> passes_over cfg j) ->
  resolve cfg = Returned (hostname_of cfg, IP_String ip, EmptyString).
Proof. apply resolve_last_incomplete. Qed.

Lemma X10_witness : resolve two_tunnels = Returned ("host-a", "10.9.0.1", EmptyString).
Proof.
  apply (X10_last_qualifying_without_mac two_tunnels [lo; tun0] tun1 [sit0] ip_vpn2).
  - reflexivity.
  - intros j [<-|[<-|[]]].
    + apply completes_not_passes, two_tunnels_lo_passes.
    + now apply no_hardware_not_completes.
  - apply two_tunnels_tun1_qualifies.
  - reflexivity.
  - intros j [<-|[]]. apply two_tunnels_sit0_passes.
Defined.

(** X11: once a hardware address is returned, interfaces enumerated
    after the rest of the list cannot change the outcome. *)
Theorem X11_stable_under_appending cfg ifs extra hostname ip mac :
  interface_table cfg = inl ifs ->
  resolve cfg = Returned (hostname, ip, mac) ->
  mac <> EmptyString ->
  resolve (with_interfaces (ifs ++ extra) cfg) = resolve cfg.
Proof.
  intros Hift Hr Hne.
  destruct (resolve_complete_split cfg _ _ _ Hr Hne)
    as (ifs' & pre & i & post & a & Hift' & -> & Hpre & Hq & Hm & _).
  rewrite Hift in Hift'. injection Hift' as ->.
  assert (Hl : interface_table (with_interfaces ((pre ++ i :: post) ++ extra) cfg)
               = inl (pre ++ i :: (post ++ extra))).
  { simpl. now rewrite <- app_assoc. }
  rewrite (proj1 (resolve_first_complete _ pre i (post ++ extra) a Hl Hpre Hq Hm)).
  rewrite (proj1 (resolve_first_complete cfg pre i post a Hift Hpre Hq Hm)).
  reflexivity.
Qed.

Lemma X11_witness :
  resolve (with_interfaces ([lo; eth0] ++ [tun0; wlan0]) plain) = resolve plain.
Proof.
  apply (X11_stable_under_appending plain [lo; eth0] [tun0; wlan0]
           "host-a" "192.0.2.10" "aa:bb:cc:dd:ee:ff").
  - reflexivity.
  - reflexivity.
  - discriminate.
Defined.

(** X12: only the interfaces that have an address passing the test of
    line 58 matter: the outcome is the one obtained on the list with all
    other interfaces removed. *)
Theorem X12_only_offering_interfaces_matter cfg ifs :
  interface_table cfg = inl ifs ->
  resolve cfg = resolve (with_interfaces (filter (offers cfg) ifs) cfg).
Proof.
  intros Hift.
  rewrite (resolve_ok _ _ Hift),
    (resolve_ok (with_interfaces (filter (offers cfg) ifs) cfg) _ eq_refl).
  simpl addr_table. rewrite <- (scan_filter_offers cfg ifs unset eq_refl). reflexivity.
Qed.

Lemma X12_witness :
  resolve vpn_first
  = resolve (with_interfaces (filter (offers vpn_first) [lo; tun0; eth0; wlan0]) vpn_first).
Proof. apply (X12_only_offering_interfaces_matter vpn_first). reflexivity. Defined.

(** X13: the returned address is non-empty exactly when some interface
    of the list qualifies, and the returned hardware address is
    non-empty exactly when some interface both qualifies and has a
    hardware address. *)
Theorem X13_fields_present_iff cfg ifs hostname ip mac :
  interface_table cfg = inl ifs ->
  resolve cfg = Returned (hostname, ip, mac) ->
  (ip <> EmptyString <-> exists j a, In j ifs /\ qualifies cfg j a)
  /\ (mac <> EmptyString <-> exists j, In j ifs /\ completes cfg j).
Proof.
  intros Hift Hr. split; split.
  - intros Hne.
    destruct (resolve_source cfg _ _ _ Hr Hne) as (ifs' & j & a & Hift' & Hj & Hq & _).
    rewrite Hift in Hift'. injection Hift' as <-. now exists j, a.
  - intros (j & a & Hj & Hq).
    destruct (resolve_finds_ip cfg ifs j a Hift Hj Hq) as (ip' & mac' & Hr' & Hne).
    rewrite Hr in Hr'. injection Hr' as _ -> _. exact Hne.
  - intros Hne.
    destruct (resolve_complete_split cfg _ _ _ Hr Hne)
      as (ifs' & pre & i & post & a & Hift' & -> & _ & Hq & Hm & _).
    rewrite Hift in Hift'. injection Hift' as ->.
    exists i. split; [apply in_or_app; right; now left|].
    split; [now exists a|exact Hm].
  - intros (j & Hj & Hc) ->.
    exact (resolve_incomplete_none cfg hostname ip ifs Hift Hr j Hj Hc).
Qed.

Lemma X13_witness :
  ("10.8.0.1" <> EmptyString
   <-> exists j a, In j [lo; tun0; sit0] /\ qualifies vpn_then_v6 j a)
  /\ (EmptyString <> EmptyString
      <-> exists j, In j [lo; tun0; sit0] /\ completes vpn_then_v6 j).
Proof.
  apply (X13_fields_present_iff vpn_then_v6 [lo; tun0; sit0] "host-a").
  - reflexivity.
  - reflexivity.
Defined.

(** X14: the text of a hardware address determines it: two hardware
    addresses printed alike are equal, so distinct interfaces' addresses
    are never reported as the same string. *)
Theorem X14_hardware_address_text_injective (a b : HardwareAddr) :
  HardwareAddr_String a = HardwareAddr_String b -> a = b.
Proof.
  intros H. apply (f_equal parse_mac) in H. now rewrite !parse_mac_String in H.
Qed.

Lemma X14_witness : HardwareAddr_of eth0 = HardwareAddr_of eth0_down.
Proof.
  apply (X14_hardware_address_text_injective (HardwareAddr_of eth0) (HardwareAddr_of eth0_down)).
  reflexivity.
Defined.

(** X15: the text of an IPv4 address determines its four bytes: two
    addresses that have an IPv4 form and print alike have the same IPv4
    form, whether they are held in 4 or in 16 bytes. *)
Theorem X15_ipv4_text_injective (ip1 ip2 : IP) p q :
  To4 ip1 = Some p -> To4 ip2 = Some q ->
  IP_String ip1 = IP_String ip2 -> p = q.
Proof.
  intros Hp Hq H. rewrite (IP_String_To4 _ _ Hp), (IP_String_To4 _ _ Hq) in H.
  exact (string4_inj p q (To4_Some_length _ _ Hp) (To4_Some_length _ _ Hq) H).
Qed.

Lemma X15_witness : [xc0; x00; x02; x0a] = [xc0; x00; x02; x0a].
Proof.
  apply (X15_ipv4_text_injective ip_doc [xc0; x00; x02; x0a]); reflexivity.
Defined.

(** X16: of an interface the resolver reads only the index and the
    hardware address: two lists that agree on these give the same
    outcome, whatever the names, MTUs and flags; in particular an
    interface that is down is treated like one that is up. *)
Theorem X16_only_index_and_mac_read cfg ifs1 ifs2 :
  map key ifs1 = map key ifs2 ->
  resolve (with_interfaces ifs1 cfg) = resolve (with_interfaces ifs2 cfg).
Proof.
  intros H.
  rewrite (resolve_ok (with_interfaces ifs1 cfg) ifs1 eq_refl),
    (resolve_ok (with_interfaces ifs2 cfg) ifs2 eq_refl).
  simpl addr_table. rewrite (scan_key cfg ifs1 ifs2 unset H). reflexivity.
Qed.

Lemma X16_witness :
  resolve (with_interfaces [lo; eth0] plain)
  = resolve (with_interfaces [lo; eth0_down] plain).
Proof. apply (X16_only_index_and_mac_read plain). reflexivity. Defined.

End FurtherProperties.
